(** * square: a shallow embedding of lib/square.js

    The build engine of [square] is embedded function by function:
    JavaScript strings are [string]s of 8-bit code units, objects used as
    dictionaries are association lists (iteration order matters) or
    [gmap]s, arrays are lists, callbacks that are invoked exactly once are
    functions returning what the callback receives, and mutable state
    ([seen], [assemble], [memo], the cache) is passed explicitly. *)

From Stdlib Require Import ZArith Ascii String.
From stdpp Require Import gmap strings list sorting pretty.

#[local] Set Warnings "-register-all".

Local Open Scope string_scope.
Local Open Scope list_scope.

(** ** JavaScript strings *)

Module Js.

(** Characters that cannot be written inside a literal. *)
Definition LF : ascii := "010"%char.
Definition CR : ascii := "013"%char.
Definition DQUOTE : ascii := "034"%char.
Definition nl : string := String LF EmptyString.

(** [WhiteSpace] and [LineTerminator] of ECMAScript, restricted to the
    code units below 256: TAB, LF, VT, FF, CR, SP and NBSP.  This is the
    set stripped by [String.prototype.trim] and matched by [\s]. *)
Definition is_space (c : ascii) : bool :=
  match nat_of_ascii c with
  | 9 | 10 | 11 | 12 | 13 | 32 | 160 => true
  | _ => false
  end.

Fixpoint trimLeft (s : string) : string :=
  match s with
  | String c r => if is_space c then trimLeft r else s
  | EmptyString => EmptyString
  end.

Fixpoint rev_append (s acc : string) : string :=
  match s with
  | EmptyString => acc
  | String c r => rev_append r (String c acc)
  end.

Definition rev (s : string) : string := rev_append s EmptyString.

Definition trimRight (s : string) : string := rev (trimLeft (rev s)).

(** [s.trim()] *)
Definition trim (s : string) : string := trimRight (trimLeft s).

(** [s.charAt(i)]: [None] stands for the empty string returned out of
    range. *)
Definition charAt (s : string) (i : Z) : option ascii :=
  if (i <? 0)%Z then None else String.get (Z.to_nat i) s.

Definition length (s : string) : Z := Z.of_nat (String.length s).

(** [s.split(re)] for a regular expression matching exactly one code
    unit out of a class, as in [/\n|\r/g]. *)
Fixpoint split_aux (sep : ascii -> bool) (s : string) (cur : string)
  : list string :=
  match s with
  | EmptyString => [rev cur]
  | String c r =>
      if sep c then rev cur :: split_aux sep r EmptyString
      else split_aux sep r (String c cur)
  end.

Definition split (sep : ascii -> bool) (s : string) : list string :=
  split_aux sep s EmptyString.

(** [arr.join(sep)] *)
Fixpoint join (sep : string) (l : list string) : string :=
  match l with
  | [] => EmptyString
  | [x] => x
  | x :: r => x +:+ sep +:+ join sep r
  end.

(** Canonicalisation used by the [i] flag on code units below 128. *)
Definition upcase (c : ascii) : ascii :=
  let n := nat_of_ascii c in
  if (97 <=? n)%nat && (n <=? 122)%nat then ascii_of_nat (n - 32) else c.

Definition eqb_ci (a b : ascii) : bool := Ascii.eqb (upcase a) (upcase b).

(** Strip the literal [lit] from the front of [s], optionally ignoring
    case; [None] when [s] does not start with it. *)
Fixpoint strip (ci : bool) (lit s : string) : option string :=
  match lit with
  | EmptyString => Some s
  | String a lit' =>
      match s with
      | String b s' =>
          if (if ci then eqb_ci a b else Ascii.eqb a b)
          then strip ci lit' s' else None
      | EmptyString => None
      end
  end.

(** The longest prefix whose code units satisfy [p], and the rest. *)
Fixpoint span (p : ascii -> bool) (s : string) : string * string :=
  match s with
  | String c r =>
      if p c then let '(a, b) := span p r in (String c a, b)
      else (EmptyString, s)
  | EmptyString => (EmptyString, EmptyString)
  end.

(** Every code unit of the text satisfies [p]. *)
Fixpoint all (p : ascii -> bool) (s : string) : bool :=
  match s with
  | String c r => p c && all p r
  | EmptyString => true
  end.

(** The text does not begin with white space. *)
Definition no_leading_space (s : string) : Prop :=
  match s with
  | String c _ => is_space c = false
  | EmptyString => True
  end.

Definition last (s : string) : option ascii :=
  match rev s with
  | String c _ => Some c
  | EmptyString => None
  end.

End Js.

(** ** JavaScript values *)

Module Value.

(** Plain data, as a manifest or a collection holds it, and instances
    of the classes the constructor creates.  An [Obj] is a plain
    object: it lists its own properties in insertion order and
    inherits from [Object.prototype].  An [Arr] has no holes and no
    properties besides its items and [length].  A [Num] is an
    integer. *)
Inductive value :=
| Undefined
| Null
| Bool (b : bool)
| Num (n : Z)
| Str (s : string)
| Arr (items : list value)
| Obj (props : list (string * value))
| Instance (class : string) (props : list (string * value)).

Inductive completion (A : Type) :=
| Normal (a : A)
| TypeError (message : string).
Arguments Normal {A} a.
Arguments TypeError {A} message.

Definition truthy (v : value) : bool :=
  match v with
  | Undefined | Null | Bool false | Num 0%Z | Str EmptyString => false
  | _ => true
  end.

Fixpoint lookup_prop (k : string) (props : list (string * value))
  : value :=
  match props with
  | [] => Undefined
  | (k', v) :: rest => if String.eqb k' k then v else lookup_prop k rest
  end.

(** The own property [k], when there is one. *)
Fixpoint own_prop (k : string) (props : list (string * value))
  : option value :=
  match props with
  | [] => None
  | (k', v) :: rest => if String.eqb k' k then Some v else own_prop k rest
  end.

(** The names that [Object.prototype] answers to: those of the
    language and the accessors that Node adds to them. *)
Definition object_prototype : list string :=
  ["constructor"; "toString"; "toLocaleString"; "valueOf";
   "hasOwnProperty"; "isPrototypeOf"; "propertyIsEnumerable";
   "__defineGetter__"; "__defineSetter__"; "__lookupGetter__";
   "__lookupSetter__"; "__proto__"].

Definition is_digit (c : ascii) : bool :=
  let n := nat_of_ascii c in (48 <=? n)%nat && (n <=? 57)%nat.

Fixpoint digits (acc : nat) (s : string) : option nat :=
  match s with
  | EmptyString => Some acc
  | String c r =>
      if is_digit c then digits (10 * acc + (nat_of_ascii c - 48)) r
      else None
  end.

(** The number that a non-empty string of decimal digits stands
    for. *)
Definition to_index (s : string) : option nat :=
  match s with
  | EmptyString => None
  | _ => digits 0 s
  end.

(** An index in the only spelling that names an item: decimal
    digits without a zero in front of them. *)
Definition canonical_index (s : string) : option nat :=
  match to_index s with
  | Some i => if String.eqb (pretty i) s then Some i else None
  | None => None
  end.

(** The integers that a number holds exactly and prints digit by
    digit. *)
Definition safe (n : Z) : bool := (Z.abs n <? 2 ^ 53)%Z.

(** [structure[k]] for a string key.  The answer is [None] where it
    lies with a prototype, which the model does not hold: for a name
    of [Object.prototype] that an object does not define itself, for
    a property that an instance does not own, for the properties of
    arrays and strings other than [length] and the indices, and for
    those of numbers and booleans (the program loads [sugar], which
    adds to these prototypes). *)
Definition get (structure : value) (k : string)
  : option (completion value) :=
  match structure with
  | Undefined =>
      Some (TypeError ("Cannot read property '" +:+ k +:+ "' of undefined"))
  | Null =>
      Some (TypeError ("Cannot read property '" +:+ k +:+ "' of null"))
  | Obj props =>
      match own_prop k props with
      | Some v => Some (Normal v)
      | None =>
          if bool_decide (k ∈ object_prototype) then None
          else Some (Normal Undefined)
      end
  | Instance _ props =>
      match own_prop k props with
      | Some v => Some (Normal v)
      | None => None
      end
  | Arr items =>
      if String.eqb k "length"
      then Some (Normal (Num (Z.of_nat (List.length items))))
      else match canonical_index k with
           | Some i => Some (Normal (default Undefined (items !! i)))
           | None => None
           end
  | Str s =>
      if String.eqb k "length" then Some (Normal (Num (Js.length s)))
      else match canonical_index k with
           | Some i =>
               Some (Normal (match String.get i s with
                             | Some c => Str (String c "")
                             | None => Undefined
                             end))
           | None => None
           end
  | Bool _ | Num _ => None
  end.

(** [String(v)].  A plain object prints through the [toString] it
    inherits; one that defines [toString] itself holds data there and
    no function, and neither that nor the inherited [valueOf] yields
    a primitive, so the conversion throws.  The answer is [None] for a
    number that is no safe integer and for an instance, whose class may
    print it in its own way.  The items of an array are converted from
    left to right. *)
Fixpoint to_string (v : value) : option (completion string) :=
  match v with
  | Undefined => Some (Normal "undefined")
  | Null => Some (Normal "null")
  | Bool true => Some (Normal "true")
  | Bool false => Some (Normal "false")
  | Num n => if safe n then Some (Normal (pretty n)) else None
  | Str s => Some (Normal s)
  | Arr items =>
      match
        (fix elements (items : list value)
           : option (completion (list string)) :=
           match items with
           | [] => Some (Normal [])
           | i :: rest =>
               match
                 match i with
                 | Undefined | Null => Some (Normal "")
                 | _ => to_string i
                 end
               with
               | Some (Normal s) =>
                   match elements rest with
                   | Some (Normal l) => Some (Normal (s :: l))
                   | other => other
                   end
               | Some (TypeError m) => Some (TypeError m)
               | None => None
               end
           end) items
      with
      | Some (Normal l) => Some (Normal (Js.join "," l))
      | Some (TypeError m) => Some (TypeError m)
      | None => None
      end
  | Obj props =>
      match own_prop "toString" props with
      | Some _ => Some (TypeError "Cannot convert object to primitive value")
      | None => Some (Normal "[object Object]")
      end
  | Instance _ _ => None
  end.

End Value.

(** ** The transform pipeline: [Square.prototype.forEach] *)

Module Pipeline.

(** The object handed from layer to layer, see [build]. *)
Record collection := Collection {
  content : string;
  extension : string;
  platform : string;
  distribution : string
}.

(** What a middleware layer does when it is called with the working
    collection and the continuation [yep]: it either calls
    [yep(err, result)] or it throws synchronously.  [err] and what is
    thrown are values of any kind, [Undefined] when [yep] is called
    without an error; [result] is [None] when it is falsy.  A layer is
    taken by what it passes on, not by changes made to the collection
    in place. *)
Inductive outcome :=
| Yep (err : Value.value) (result : option collection)
| Throws (e : Value.value).

Definition layer := collection -> outcome.

(** The two closure variables of [forEach], with the calls made so far:
    the position of each invoked layer and the collection it received. *)
Record state := State {
  st_backup : collection;
  st_collection : collection;
  st_trace : list (nat * collection)
}.

(** [function yep(err, result)], up to the final [done(err)]. *)
Definition yep (result : option collection) (st : state) : state :=
  match result with
  | Some r => State r r (st_trace st)
  | None => State (st_backup st) (st_backup st) (st_trace st)
  end.

(** [function iterate(layer, done)]; the result is what [done]
    receives, with the updated closure. *)
Definition iterate (index : nat) (l : layer) (st : state)
  : Value.value * state :=
  let called :=
    State (st_backup st) (st_collection st)
          (st_trace st ++ [(index, st_collection st)]) in
  match l (st_collection st) with
  | Yep err result => (err, yep result called)
  | Throws e => (e, yep None called)
  end.

(** [async.forEachSeries]: one element after the other; a truthy
    value given to [done] ends the series and goes to the final
    callback, which is otherwise called without an error ([None]). *)
Fixpoint forEachSeries {A St : Type}
    (iterator : nat -> A -> St -> Value.value * St)
    (index : nat) (arr : list A) (s : St) : option Value.value * St :=
  match arr with
  | [] => (None, s)
  | x :: rest =>
      let '(err, s') := iterator index x s in
      if Value.truthy err then (Some err, s')
      else forEachSeries iterator (S index) rest s'
  end.

Definition run (middleware : list layer) (c : collection)
  : option Value.value * state :=
  forEachSeries iterate 0 middleware (State c c []).

(** [err || undefined] *)
Definition or_undefined (err : option Value.value) : option Value.value :=
  match err with
  | Some e => if Value.truthy e then Some e else None
  | None => None
  end.

(** [forEach(collection, cb)]: the arguments [cb] is called with. *)
Definition forEach (middleware : list layer) (c : collection)
  : option Value.value * collection :=
  let '(err, st) := run middleware c in (or_undefined err, st_collection st).

(** The layers [forEach] has invoked, in order. *)
Definition invoked (middleware : list layer) (c : collection)
  : list (nat * collection) :=
  st_trace (snd (run middleware c)).

(** Example layers. *)
Definition set_content (s : string) (c : collection) : collection :=
  Collection s (extension c) (platform c) (distribution c).

Definition addSuffix (x : string) : layer :=
  fun c => Yep Value.Undefined (Some (set_content (content c +:+ x) c)).

Definition noop : layer := fun _ => Yep Value.Undefined None.

Definition ok : layer := fun c => Yep Value.Undefined (Some c).

Definition throws (e : Value.value) : layer := fun _ => Throws e.

(** A layer that reports an error and hands over a result with it. *)
Definition reports (e : Value.value) (r : collection) : layer :=
  fun _ => Yep e (Some r).

(** What one layer contributes to the working value. *)
Definition step (c : collection) (l : layer) : collection :=
  match l c with
  | Yep _ (Some r) => r
  | _ => c
  end.

(** The value that a layer gives as its error. *)
Definition raised (o : outcome) : Value.value :=
  match o with
  | Yep err _ => err
  | Throws e => e
  end.

(** The error that ends the series, if the layer gives one. *)
Definition error_of (o : outcome) : option Value.value :=
  if Value.truthy (raised o) then Some (raised o) else None.

(** The error and the collection that [forEach] hands to its callback,
    computed without the closure. *)
Fixpoint settle (middleware : list layer) (c : collection)
  : option Value.value * collection :=
  match middleware with
  | [] => (None, c)
  | l :: rest =>
      match error_of (l c) with
      | Some e => (Some e, step c l)
      | None => settle rest (step c l)
      end
  end.


(** The calls [forEach] makes: layer [i] is the [i]-th call and
    receives what the layers before it have produced. *)
Definition call (middleware : list layer) (c : collection) (offset i : nat)
  : nat * collection :=
  (offset + i, foldl step c (take i middleware)).

End Pipeline.

(** ** Critical failures and the monad of the synchronous code *)

Module Critical.

(** [cli] is the flag of the prototype; [handled] tells whether an
    'error' listener is registered on the emitter. *)
Record env := Env { cli : bool; handled : bool }.

Inductive abort :=
| Thrown (message : string)
| Exit (code : Z).

Inductive res (A : Type) :=
| Ret (a : A)
| Fail (e : abort)
| OutOfFuel.
Arguments Ret {A} a.
Arguments Fail {A} e.
Arguments OutOfFuel {A}.

(** The array [seen] that [directive] shares with its recursive calls,
    and the messages given to [logger.critical]. *)
Record world := World { seen : list string; criticals : list string }.

Definition M (A : Type) : Type := world -> res A * world.

Definition ret {A} (a : A) : M A := fun w => (Ret a, w).

Definition bind {A B} (m : M A) (k : A -> M B) : M B :=
  fun w =>
    match m w with
    | (Ret a, w') => k a w'
    | (Fail e, w') => (Fail e, w')
    | (OutOfFuel, w') => (OutOfFuel, w')
    end.

Definition throw {A} (message : string) : M A :=
  fun w => (Fail (Thrown message), w).

Definition out_of_fuel {A} : M A := fun w => (OutOfFuel, w).

Definition get_seen : M (list string) := fun w => (Ret (seen w), w).

Definition push_seen (location : string) : M unit :=
  fun w => (Ret tt, World (seen w ++ [location]) (criticals w)).

(** [critical(message)] with the message already formatted.  Outside
    the CLI it emits 'error', which throws unless a listener is
    registered, and otherwise returns [false]. *)
Definition critical (e : env) (message : string) : M unit :=
  fun w =>
    let w' := World (seen w) (criticals w ++ [message]) in
    if cli e then (Fail (Exit 1), w')
    else if handled e then (Ret tt, w')
    else (Fail (Thrown message), w').

End Critical.

Notation "'do' x <- m ; k" := (Critical.bind m (fun x => k))
  (at level 10, x pattern, m at level 100, k at level 200).

(** ** Comment wrapping and the directive resolver *)

Module Directive.
Import Critical.

(** An entry of the comment-style table ([lib/comments.js]). *)
Record style := Style { header : string; body : string; footer : string }.

(** A match of [reqparse]: a comment opener, the tag [square] in
    brackets, an at-sign with one of the three statements, and a
    quoted file name, with white space allowed in between and the
    letters compared without case (flag [i]); the match then runs to
    the end of the line. *)
Record reqmatch := ReqMatch {
  m_prefix : string;       (* the text before the match *)
  m_match : string;        (* the complete matched text *)
  m_commenttype : string;
  m_statement : string;
  m_file : option string;  (* [undefined] when the quotes are empty *)
  m_suffix : string        (* the text after the match *)
}.

Definition commenttype (s : string) : option (string * string) :=
  match Js.strip false "/*" s with
  | Some r => Some ("/*", r)
  | None =>
      match Js.strip false "//" s with
      | Some r => Some ("//", r)
      | None => None
      end
  end.

Definition keyword (kw s : string) : option (string * string) :=
  match Js.strip true kw s with
  | Some r => Some (substring 0 (String.length kw) s, r)
  | None => None
  end.

Definition statement (s : string) : option (string * string) :=
  match keyword "require" s with
  | Some r => Some r
  | None =>
      match keyword "import" s with
      | Some r => Some r
      | None => keyword "include" s
      end
  end.

Definition is_line_terminator (c : ascii) : bool :=
  Ascii.eqb c Js.LF || Ascii.eqb c Js.CR.

(** The match of [reqparse] anchored at the start of [s]: comment type,
    statement, file and what is left of the line after the match. *)
Definition reqparse_at (s : string)
  : option (string * string * option string * string) :=
  '(ct, r1) ← commenttype s;
  r3 ← Js.strip true "[square]" (Js.trimLeft r1);
  r5 ← Js.strip false "@" (Js.trimLeft r3);
  '(st, r6) ← statement r5;
  r8 ← Js.strip false (String Js.DQUOTE "") (Js.trimLeft r6);
  let '(file, r9) := Js.span (fun c => negb (Ascii.eqb c Js.DQUOTE)) r8 in
  r10 ← Js.strip false (String Js.DQUOTE "") r9;
  let '(_, suffix) := Js.span (fun c => negb (is_line_terminator c)) r10 in
  Some (ct, st, if String.eqb file "" then None else Some file, suffix).

(** The leftmost match, as [RegExp.prototype.exec] finds it. *)
Fixpoint reqparse_from (before : string) (s : string) : option reqmatch :=
  match reqparse_at s with
  | Some (ct, st, file, suffix) =>
      Some (ReqMatch (Js.rev before)
              (substring 0 (String.length s - String.length suffix) s)
              ct st file suffix)
  | None =>
      match s with
      | String c r => reqparse_from (String c before) r
      | EmptyString => None
      end
  end.

Definition reqparse_exec (line : string) : option reqmatch :=
  reqparse_from "" line.

(** The test of [prev]: does the line open with one of the two
    comment openers? *)
Definition is_comment (line : string) : bool :=
  match commenttype line with Some _ => true | None => false end.

(** [function prev(index, lines)] of [directive]: the nearest entry
    before [index] that has content and is no comment, trimmed, with its
    position.  [index] never exceeds the length of [lines], see
    [scan]. *)
Fixpoint prev (index : nat) (lines : list string) : option (string * nat) :=
  match index with
  | O => None
  | S i =>
      match lines !! i with
      | Some l =>
          let line := Js.trim l in
          if negb (String.eqb line "") && negb (is_comment line)
          then Some (line, i)
          else prev i lines
      | None => None
      end
  end.

Definition ends_with (c : ascii) (s : string) : bool :=
  match Js.charAt s (Js.length s - 1) with
  | Some d => Ascii.eqb d c
  | None => false
  end.

Definition starts_with (c : ascii) (s : string) : bool :=
  match Js.charAt s 0 with
  | Some d => Ascii.eqb d c
  | None => false
  end.

Section WithEnvironment.

Variable e : env.

(** The file system: the content of every existing file. *)
Variable fs : gmap string string.

(** [path.resolve(reference, file)] and [path.dirname] of Node. *)
Variable path_resolve : string -> option string -> string.
Variable path_dirname : string -> string.

(** [commentStyles.ext[extension] || commentStyles.styles[extension]];
    the table itself is in [lib/comments.js]. *)
Variable commentStyles : string -> option style.

(** [this.package.path] *)
Variable package_path : string.

Definition existsSync (location : string) : bool :=
  bool_decide (is_Some (fs !! location)).

Definition readFileSync (location : string) : M string :=
  match fs !! location with
  | Some data => ret data
  | None => throw ("ENOENT, no such file or directory " +:+ location)
  end.

(** [commentWrap(data, extension)]; the lines are split with
    [/[\n|\r]/g], a class that also contains the bar. *)
Definition commentWrap (data extension : string) : string :=
  match commentStyles extension with
  | None => ""
  | Some sty =>
      let lines :=
        Js.split (fun c => is_line_terminator c || Ascii.eqb c "|") data in
      Js.join Js.nl
        (imap (fun index line =>
           let hd := Nat.eqb index 0 in
           let ft := Nat.eqb (index + 1) (List.length lines) in
           if hd && ft
           then Js.nl +:+ header sty +:+ " " +:+ line +:+ footer sty +:+ Js.nl
           else if hd
           then Js.nl +:+ header sty +:+ Js.nl +:+ body sty +:+ " " +:+ line
           else if ft
           then body sty +:+ " " +:+ line +:+ Js.nl +:+ footer sty +:+ Js.nl
           else body sty +:+ " " +:+ line) lines)
  end.

Definition undefined_or (o : option string) : string :=
  match o with Some s => s | None => "undefined" end.

(** The message of [critical] for an inclusion seen before. *)
Definition recursion_detected (m : reqmatch) : string :=
  "recursive [square] import statement detected " +:+ m_match m.

(** [function insert(match, commenttype, statement, file)]; [rec] is
    [self.directive].  The result is the text that [replace] puts in
    place of the match, so the [false] returned by [critical] reads
    ["false"]. *)
Definition insert (rec : string -> string -> string -> M string)
    (extension reference : string) (m : reqmatch) : M string :=
  let location := path_resolve reference (m_file m) in
  if negb (existsSync location) then
    do _ <- critical e ("[square] @" +:+ m_statement m +:+ " statement "
                         +:+ undefined_or (m_file m) +:+ " does not exist");
    ret "false"
  else
    do sn <- get_seen;
    if bool_decide (location ∈ sn) then
      do _ <- critical e (recursion_detected m);
      ret "false"
    else
      do _ <- push_seen location;
      do content <- readFileSync location;
      let data := commentWrap ("[square] directive: " +:+ location) extension
                  +:+ Js.trim content in
      rec data extension (path_dirname location).

(** [function scan(line, index, lines)], with [assemble] passed in
    and returned. *)
Definition scan (rec : string -> string -> string -> M string)
    (extension reference : string)
    (assemble : list string) (index : nat) (line : string)
  : M (list string) :=
  match reqparse_exec line with
  | Some m =>
      let last := prev index assemble in
      do inserted <- insert rec extension reference m;
      let content := m_prefix m +:+ inserted +:+ m_suffix m in
      let assemble :=
        match last with
        | Some (last_line, last_index) =>
            if String.eqb extension "js"
               && negb (ends_with ";" last_line)
               && negb (String.eqb content "")
               && negb (starts_with ";" content)
            then <[last_index := last_line +:+ ";"]> assemble
            else assemble
        | None => assemble
        end in
      ret (assemble ++ [content])
  | None => ret (assemble ++ [line])
  end.

(** [lines.forEach(scan)] *)
Fixpoint scan_all (rec : string -> string -> string -> M string)
    (extension reference : string)
    (assemble : list string) (index : nat) (lines : list string)
  : M (list string) :=
  match lines with
  | [] => ret assemble
  | line :: rest =>
      do assemble <- scan rec extension reference assemble index line;
      scan_all rec extension reference assemble (S index) rest
  end.

Definition directive_body (rec : string -> string -> string -> M string)
    (data extension reference : string) : M string :=
  let reference :=
    if String.eqb reference "" then package_path else reference in
  do assemble <-
    scan_all rec extension reference [] 0
      (Js.split is_line_terminator data);
  ret (Js.trim (Js.join Js.nl assemble)).

(** [directive(data, extension, reference, seen)]; [seen] is the array
    of the world.  [fuel] bounds the depth of the inclusions. *)
Fixpoint directive (fuel : nat) (data extension reference : string)
  : M string :=
  match fuel with
  | O => out_of_fuel
  | S fuel' => directive_body (directive fuel') data extension reference
  end.

(** The existing files that [seen] does not hold yet: they bound
    the depth of the inclusions still to come. *)
Definition unseen (w : world) : nat :=
  size (dom fs ∖ list_to_set (seen w) : gset string).

(** A resolver that only adds to [seen] and that returns whenever
    fewer than [n] files are left to include. *)
Definition well_behaved (n : nat)
    (rec : string -> string -> string -> M string) : Prop :=
  forall data extension reference w,
    seen w ⊆ seen (snd (rec data extension reference w))
    /\ (unseen w < n ->
        fst (rec data extension reference w) <> OutOfFuel).

(** How a resolution may change the world: [seen] and the log are
    only added to, what is added to [seen] is an existing file, and
    [seen] stays without repetition. *)
Definition grows (w w' : world) : Prop :=
  seen w `prefix_of` seen w'
  /\ criticals w `prefix_of` criticals w'
  /\ (NoDup (seen w) -> NoDup (seen w'))
  /\ (forall x, x ∈ seen w' -> x ∈ seen w \/ is_Some (fs !! x)).

Definition orderly (rec : string -> string -> string -> M string) : Prop :=
  forall data extension reference w,
    grows w (snd (rec data extension reference w)).

(** A call without the fourth argument starts from [seen = []]. *)
Definition directive_fresh (fuel : nat) (data extension reference : string)
  : M string :=
  fun w => directive fuel data extension reference (World [] (criticals w)).

End WithEnvironment.

End Directive.

(** ** Pre-processing and the per-extension reducer *)

Module Reduce.
Import Critical Directive.

(** [details] given to a compiler.  The numbers come from two lookups
    in a dictionary; [None] is what arithmetic on a missing entry
    gives. *)
Record details := Details {
  d_index : option Z;
  d_count : option Z;
  d_platform : string
}.

(** A compiler of [lib/pre-process], called with the content and the
    details: the error or the content its callback receives. *)
Definition compiler := string -> details -> string + string.

Record meta := Meta {
  content : string;
  extension : string;
  output : string;
  meta_compiler : option compiler;
  key : string;
  location : string;
  directory : string;
  filename : string
}.

Record bundle := Bundle {
  dependencies : option (list string);
  bundle_meta : meta
}.

(** [Square.prototype.semicolon] *)
Definition semicolon (content : string) : string :=
  if String.eqb content "" then ""
  else
    match Js.charAt (Js.trim content) (Js.length content - 1) with
    | Some char =>
        if negb (Ascii.eqb char ";")
           && (Ascii.eqb char ")" || Ascii.eqb char "}")
        then content +:+ ";"
        else content
    | None => content
    end.

(** Does the text end with a closing parenthesis or brace? *)
Definition closes (s : string) : bool :=
  match Js.last s with
  | Some c => Ascii.eqb c ")" || Ascii.eqb c "}"
  | None => false
  end.

(** The documents are kept for requested extensions only, and each is
    free of surrounding white space. *)
Definition documents_tidy (extensions : list string)
    (memo : gmap string string) : Prop :=
  forall k v, memo !! k = Some v -> k ∈ extensions /\ Js.trim v = v.

(** The details of a bundle with the given source extension. *)
Definition details_of (totals count : gmap string Z)
    (extension platform : string) : details :=
  Details (t ← totals !! extension; c ← count !! extension; Some (t - c)%Z)
          (totals !! extension) platform.

Fixpoint mapM {A B} (f : A -> M B) (l : list A) : M (list B) :=
  match l with
  | [] => ret []
  | x :: r => do y <- f x; do ys <- mapM f r; ret (y :: ys)
  end.

Section WithEnvironment.

Variable e : env.
Variable fs : gmap string string.
Variable path_resolve : string -> option string -> string.
Variable path_dirname : string -> string.
Variable path_extname : string -> string.
Variable commentStyles : string -> option style.
Variable package_path : string.

Let commentWrap := commentWrap commentStyles.
Let directive_fresh :=
  directive_fresh e fs path_resolve path_dirname commentStyles package_path.

(** [preprocess(bundle, details, fn)]: the arguments of [fn]. *)
Definition preprocess (fuel : nat) (b : bundle) (d : details)
  : M (string + string) :=
  let meta := bundle_meta b in
  do deps <-
    match dependencies b with
    | Some (k :: ks) =>
        do parts <-
          mapM (fun key =>
                  do text <- readFileSync fs key;
                  ret (commentWrap ("[square] dependency: " +:+ key)
                                   (extension meta) +:+ text))
               (k :: ks);
        ret (Js.join Js.nl parts)
    | _ => ret ""
    end;
  let content := deps
    +:+ commentWrap ("[square] bundle: " +:+ location meta) (extension meta)
    +:+ content meta in
  do content <-
    directive_fresh fuel content (extension meta) (directory meta);
  match meta_compiler meta with
  | None => ret (inr content)
  | Some compile =>
      match compile content d with
      | inl err => ret (inl err)
      | inr content =>
          ret (inr (content +:+
            commentWrap
              (Js.join Js.nl
                 ["[square] the code above is compiled from "
                    +:+ extension meta +:+ " to " +:+ output meta;
                  "[square] see " +:+ location meta])
              (output meta)))
      end
  end.

(** The counter of [reduce]: how many files carry each extension. *)
Definition counter (memo : gmap string Z) (file : string)
  : gmap string Z :=
  let extension := substring 1 (String.length (path_extname file))
                             (path_extname file) in
  <[extension := (default 0%Z (memo !! extension) + 1)%Z]> memo.

(** One call of the iterator given to [async.reduce]: the error, if
    one is passed on, and the new [memo] and [count]. *)
Definition reduce_step (fuel : nat) (platform : string)
    (extensions : list string) (totals : gmap string Z)
    (st : gmap string string * gmap string Z) (b : bundle)
  : M (option string * (gmap string string * gmap string Z)) :=
  let '(memo, count) := st in
  let extension := extension (bundle_meta b) in
  let output := output (bundle_meta b) in
  let d := details_of totals count extension platform in
  let count := alter (fun c => (c - 1)%Z) extension count in
  if negb (bool_decide (output ∈ extensions)) then ret (None, (memo, count))
  else
    let memo :=
      match memo !! output with
      | Some (String _ _) => memo
      | _ => <[output := ""]> memo
      end in
    do r <- preprocess fuel b d;
    match r with
    | inl err => ret (Some err, (memo, count))
    | inr content =>
        let memo :=
          if String.eqb output "js"
          then alter semicolon output memo else memo in
        let memo :=
          alter (fun m => Js.trim (m +:+ Js.nl +:+ content)) output memo in
        ret (None, (memo, count))
    end.

(** [async.reduce] over the tree. *)
Fixpoint reduce_tree (fuel : nat) (platform : string)
    (extensions : list string) (totals : gmap string Z)
    (st : gmap string string * gmap string Z) (tree : list bundle)
  : M (option string * gmap string string) :=
  match tree with
  | [] => ret (None, fst st)
  | b :: rest =>
      do r <- reduce_step fuel platform extensions totals st b;
      match r with
      | (Some err, st') => ret (Some err, fst st')
      | (None, st') =>
          reduce_tree fuel platform extensions totals st' rest
      end
  end.

(** [reduce(platform, extensions, fn)] on a package with the given
    [meta.files] and [meta.tree]: the arguments of [fn]. *)
Definition reduce (fuel : nat) (files : list string) (tree : list bundle)
    (platform : string) (extensions : list string)
  : M (option string * gmap string string) :=
  let count := foldl counter ∅ files in
  let totals := count in
  reduce_tree fuel platform extensions totals (∅, count) tree.

End WithEnvironment.

End Reduce.

(** ** The manifest: bundles, weights and the tree of [parse] *)

Module Manifest.
Import Critical.

(** A bundle as the manifest declares it.  [weight] is [None] when the
    key is absent or does not convert to a number. *)
Record declared := Declared {
  d_weight : option Z;
  d_description : string
}.

(** The two shapes of the [bundle] key. *)
Inductive bundles :=
| BundleArray (files : list string)
| BundleObject (entries : list (string * declared)).

(** What [struct.bundle] holds once the array has been converted. *)
Inductive value :=
| Undefined
| Object (entries : list (string * declared)).

(** A bundle of the tree: its key, [meta.location] and its weight. *)
Record bundle := Bundle {
  key : string;
  location : string;
  weight : Z
}.

(** [memo[file] = b] on an object whose keys keep insertion order. *)
Fixpoint assign (file : string) (b : declared)
    (memo : list (string * declared)) : list (string * declared) :=
  match memo with
  | [] => [(file, b)]
  | (k, v) :: rest =>
      if String.eqb k file then (k, b) :: rest
      else (k, v) :: assign file b rest
  end.

(** [createBundle(path, index)]; [package_bundle] is
    [this.package.bundle], which is truthy in both shapes. *)
Definition createBundle (package_bundle : bundles)
    (path : string) (index : nat) : declared :=
  Declared
    (Some (if Nat.eqb index 0
           then match package_bundle with
                | BundleObject entries => Z.of_nat (List.length entries)
                | BundleArray _ => 1%Z
                end
           else Z.of_nat index))
    "This file description has been generated by [square]".

(** The callback [function bundle(memo, file, index)] of [parse].  It
    stores the new bundle in [memo] and ends without a [return], so
    the caller receives [undefined]; on [undefined] the store itself
    throws. *)
Definition bundle_callback (package_bundle : bundles)
    (memo : value) (file : string) (index : nat) : M value :=
  match memo with
  | Object entries =>
      let _stored := assign file (createBundle package_bundle file index)
                            entries in
      ret Undefined
  | Undefined =>
      throw ("TypeError: Cannot set property '" +:+ file
             +:+ "' of undefined")
  end.

(** [Array.prototype.reduce(callback, initial)] *)
Fixpoint array_reduce {A B : Type} (callback : B -> A -> nat -> M B)
    (arr : list A) (index : nat) (acc : B) : M B :=
  match arr with
  | [] => ret acc
  | x :: rest =>
      do acc <- callback acc x index;
      array_reduce callback rest (S index) acc
  end.

(** [if (Array.isArray(struct.bundle)) struct.bundle = ...reduce(...)] *)
Definition convert (b : bundles) : M value :=
  match b with
  | BundleArray files => array_reduce (bundle_callback b) files 0 (Object [])
  | BundleObject entries => ret (Object entries)
  end.

(** [Object.keys(struct.bundle)] *)
Definition keys (v : value) : M (list string) :=
  match v with
  | Object entries => ret (entries.*1)
  | Undefined => throw "TypeError: Object.keys called on non-object"
  end.

(** [Array.prototype.sort(comparator)], as a stable insertion sort: an
    element goes behind everything the comparator does not put after
    it. *)
Fixpoint sort_insert {A : Type} (cmp : A -> A -> Z) (x : A) (l : list A)
  : list A :=
  match l with
  | [] => [x]
  | y :: rest =>
      if (cmp y x <=? 0)%Z then y :: sort_insert cmp x rest
      else x :: y :: rest
  end.

Definition sort {A : Type} (cmp : A -> A -> Z) (l : list A) : list A :=
  foldl (fun acc x => sort_insert cmp x acc) [] l.

(** [function sort(a, b) { return b.weight - a.weight; }] *)
Definition by_weight (a b : bundle) : Z := (weight b - weight a)%Z.




Section WithEnvironment.

Variable e : env.
Variable fs : gmap string string.

(** [helper.base] and [helper.weight] of [lib/helpers.js]. *)
Variable helper_base : string -> string -> string.
Variable helper_weight : Z -> Z -> Z.

(** [struct.path] *)
Variable struct_path : string.

(** The closure variables [tree], [files] and [size] of [parse]. *)
Record progress := Progress {
  tree : list bundle;
  files : list string;
  size : Z
}.

(** [+bundle.weight || 1] *)
Definition weight_or_one (w : option Z) : Z :=
  match w with
  | Some 0%Z | None => 1%Z
  | Some n => n
  end.

(** The callback given to [_.forEach(struct.bundle, ...)], without
    the fields of [createMeta] and the dependencies, which play no
    part in the order.  The boolean tells whether the iteration goes
    on: the [false] returned through [critical] ends it. *)
Definition each (p : progress) (entry : string * declared)
  : M (bool * progress) :=
  let '(location_key, b) := entry in
  let location := helper_base location_key struct_path in
  if negb (bool_decide (is_Some (fs !! location))) then
    do _ <- critical e
          ("Duuuude wtf, you specified bundle " +:+ location
           +:+ ", but that file doesnt exist");
    ret (false, p)
  else
    let w := helper_weight (weight_or_one (d_weight b)) (size p) in
    ret (true,
         Progress (tree p ++ [Bundle location_key location w])
                  (files p ++ [location])
                  (size p - 1)).

(** The bundle pushed for the [i]-th entry of a manifest when
    [size] bundles were left at the start. *)
Definition bundle_at (size : Z) (i : nat) (entry : string * declared)
  : bundle :=
  Bundle (fst entry) (helper_base (fst entry) struct_path)
         (helper_weight (weight_or_one (d_weight (snd entry)))
                        (size - Z.of_nat i)).

(** [_.forEach] with its early exit. *)
Fixpoint forEach (p : progress) (entries : list (string * declared))
  : M progress :=
  match entries with
  | [] => ret p
  | entry :: rest =>
      do r <- each p entry;
      match r with
      | (true, p') => forEach p' rest
      | (false, p') => ret p'
      end
  end.

(** The part of [parse] between the conversion of an array of files
    and [struct.meta], for a configuration without [import]: the
    sorted tree and the list of files. *)
Definition parse (declaration : bundles) : M (list bundle * list string) :=
  do v <- convert declaration;
  do ks <- keys v;
  let entries := match v with Object es => es | Undefined => [] end in
  do p <- forEach (Progress [] [] (Z.of_nat (List.length ks))) entries;
  ret (sort by_weight (tree p), files p).

End WithEnvironment.

End Manifest.

(** ** Templates *)

Module Template.
Import Value.

(** A code unit that a numeric literal, or the white space before it,
    may begin with. *)
Definition numeric_start (c : ascii) : bool :=
  is_digit c || Js.is_space c
  || Ascii.eqb c "+" || Ascii.eqb c "-" || Ascii.eqb c "." || Ascii.eqb c "I".

(** The key [+paths[i] || paths[i]].  The empty segment converts to
    zero and a segment that does not begin like a numeric literal to
    [NaN], so both are used as they are; a segment of decimal digits is
    a number, used in its canonical spelling unless it is zero.  The
    answer is [None] for the other segments (signs, exponents, other
    bases, white space) and for numbers that are no safe integers. *)
Definition segment_key (segment : string) : option string :=
  match segment with
  | EmptyString => Some segment
  | String c _ =>
      match digits 0 segment with
      | Some O => Some segment
      | Some n => if safe (Z.of_nat n) then Some (pretty n) else None
      | None => if numeric_start c then None else Some segment
      end
  end.

(** The loop of [getObjectByKey]. *)
Fixpoint walk (paths : list string) (result structure : value)
  : option (completion value) :=
  match paths with
  | [] => Some (Normal result)
  | p :: rest =>
      match segment_key p with
      | Some k =>
          match get structure k with
          | Some (Normal r) => walk rest r r
          | other => other
          end
      | None => None
      end
  end.

Definition has_dot (prop : string) : bool :=
  existsb (Ascii.eqb ".") (list_ascii_of_string prop).

(** [function getObjectByKey(data, prop)] *)
Definition getObjectByKey (data : value) (prop : string)
  : option (completion value) :=
  if String.eqb prop "" || negb (has_dot prop) then get data prop
  else
    match walk (Js.split (Ascii.eqb ".") prop) (Str prop) data with
    | Some (Normal result) =>
        if truthy result then Some (Normal result) else get data prop
    | other => other
    end.

(** [function replace(tag, prop)], with the conversion to a string
    that [String.prototype.replace] applies to what it returns. *)
Definition replace (data : value) (prop : string)
  : option (completion string) :=
  match getObjectByKey data prop with
  | Some (Normal v) => if truthy v then to_string v else Some (Normal "")
  | Some (TypeError m) => Some (TypeError m)
  | None => None
  end.

(** The text [text] followed by what the rest of the replacement
    gives. *)
Definition emit (text : string) (k : option (completion string))
  : option (completion string) :=
  match k with
  | Some (Normal out) => Some (Normal (text +:+ out))
  | other => other
  end.

(** [str.replace(re, replace)] for the global expression that matches
    an opening brace, one or more characters other than an opening
    brace, as few as possible, and a closing brace.  [tag] is [None]
    outside a candidate match and otherwise holds the characters read
    since its opening brace, last first. *)
Fixpoint replace_all (data : value) (tag : option string) (str : string)
  : option (completion string) :=
  match str with
  | EmptyString =>
      match tag with
      | None => Some (Normal "")
      | Some read => Some (Normal ("{" +:+ Js.rev read))
      end
  | String c rest =>
      match tag with
      | None =>
          if Ascii.eqb c "{" then replace_all data (Some "") rest
          else emit (String c "") (replace_all data None rest)
      | Some read =>
          if Ascii.eqb c "{" then
            emit ("{" +:+ Js.rev read) (replace_all data (Some "") rest)
          else if Ascii.eqb c "}" && negb (String.eqb read "") then
            match replace data (Js.rev read) with
            | Some (Normal text) => emit text (replace_all data None rest)
            | other => other
            end
          else replace_all data (Some (String c read)) rest
      end
  end.

Section WithTag.

(** The object that [this.tag()] returns. *)
Variable tag : value.

(** [data || this.tag()] *)
Definition given (data : value) : value :=
  if truthy data then data else tag.

(** [template(str, data)] *)
Definition template (str : string) (data : value)
  : option (completion string) :=
  replace_all (given data) None str.

End WithTag.

End Template.

(** ** The expiring cache and the tags *)

Module Cache.

(** Modelled from the spec: the expiring cache (the module [expirable]
    is not among the sources).  An entry holds a value and the time of
    its creation and expires a fixed time to live after it; the cache
    is running or stopped, and nothing memoized in a build is left when
    the next one starts.  Times are in milliseconds. *)
Record entry := Entry { value : string; created : Z }.

Record cache := Cache {
  ttl : Z;
  running : bool;
  entries : gmap string entry
}.

(** [new Expires('3 minutes')] *)
Definition three_minutes : Z := 180000.

Definition create (ttl : Z) : cache := Cache ttl false ∅.

Definition alive (c : cache) (now : Z) (en : entry) : bool :=
  (now - created en <? ttl c)%Z.

Definition get (now : Z) (key : string) (c : cache) : option string :=
  match entries c !! key with
  | Some en => if alive c now en then Some (value en) else None
  | None => None
  end.

Definition has (now : Z) (key : string) (c : cache) : bool :=
  match entries c !! key with
  | Some en => alive c now en
  | None => false
  end.

Definition set (now : Z) (key value : string) (c : cache) : cache :=
  Cache (ttl c) (running c) (<[key := Entry value now]> (entries c)).

Definition start (c : cache) : cache := Cache (ttl c) true ∅.

Definition stop (c : cache) : cache := Cache (ttl c) false ∅.

End Cache.

Module Tag.

(** The cache of the instance and the commands given to [exec] so
    far. *)
Record state := State { cache : Cache.cache; executed : list string }.

(** The two properties of a tag that come from the version control. *)
Record tags := Tags { branch : option string; sha : option string }.

Definition is_word (c : ascii) : bool :=
  let n := nat_of_ascii c in
  ((48 <=? n)%nat && (n <=? 57)%nat)
  || ((65 <=? n)%nat && (n <=? 90)%nat)
  || ((97 <=? n)%nat && (n <=? 122)%nat)
  || Ascii.eqb c "_".

(** The first capture of an expression made of the literal [lit], one
    white space character and one or more characters of [class]. *)
Definition capture_at (lit : string) (class : ascii -> bool) (s : string)
  : option string :=
  match Js.strip false lit s with
  | Some (String c r) =>
      if Js.is_space c then
        match Js.span class r with
        | (String d w, _) => Some (String d w)
        | _ => None
        end
      else None
  | _ => None
  end.

Fixpoint capture (lit : string) (class : ascii -> bool) (s : string)
  : option string :=
  match capture_at lit class s with
  | Some w => Some w
  | None =>
      match s with
      | String _ r => capture lit class r
      | EmptyString => None
      end
  end.

(** [if (x) { x = re.exec(x) || ''; x = x.length ? x[1] : x; }] *)
Definition extract (lit : string) (class : ascii -> bool)
    (x : option string) : option string :=
  match x with
  | Some (String c r) => Some (default "" (capture lit class (String c r)))
  | other => other
  end.

Section WithCollaborator.

(** [exec(command, { silent: true }).output] *)
Variable exec : string -> string.

(** [tag(collection)] called at the time [now]: the branch and the
    commit of the property bag. *)
Definition tag (now : Z) (st : state) : tags * state :=
  let cached_branch := Cache.get now "git branch" (cache st) in
  let cached_sha := Cache.get now "git show" (cache st) in
  let '(branch, st) :=
    if negb (Cache.has now "git branch" (cache st)) then
      let output := exec "git branch" in
      (Some output,
       State (Cache.set now "git branch" output (cache st))
             (executed st ++ ["git branch"]))
    else (cached_branch, st) in
  let '(sha, st) :=
    if negb (Cache.has now "git show" (cache st)) then
      let output := exec "git show -s" in
      (Some output,
       State (Cache.set now "git show" output (cache st))
             (executed st ++ ["git show -s"]))
    else (cached_sha, st) in
  (Tags (extract "*" (fun c => is_word c || Ascii.eqb c ".") branch)
        (extract "commit" is_word sha),
   st).

(** The branch and the commit read from the outputs of the two
    commands. *)
Definition vcs_tags : tags :=
  Tags (extract "*" (fun c => is_word c || Ascii.eqb c ".")
                (Some (exec "git branch")))
       (extract "commit" is_word (Some (exec "git show -s"))).

(** The entries of the cache once both outputs are stored. *)
Definition stored (created : Z) : gmap string Cache.entry :=
  <["git show" := Cache.Entry (exec "git show -s") created]>
    (<["git branch" := Cache.Entry (exec "git branch") created]> ∅).

(** The calls of [tag] made at the given times. *)
Fixpoint tag_calls (times : list Z) (st : state) : list tags * state :=
  match times with
  | [] => ([], st)
  | now :: rest =>
      let '(t, st) := tag now st in
      let '(ts, st) := tag_calls rest st in
      (t :: ts, st)
  end.

(** One build: [cache.start()], the calls of [tag] it makes, and
    [cache.stop()] in [done]. *)
Definition build (times : list Z) (st : state) : list tags * state :=
  let st := State (Cache.start (cache st)) (executed st) in
  let '(ts, st) := tag_calls times st in
  (ts, State (Cache.stop (cache st)) (executed st)).

(** How often a command has been executed. *)
Definition count (command : string) (log : list string) : nat :=
  List.length (filter (fun c => c = command) log).

End WithCollaborator.

End Tag.

(** ** The constructor *)

Module Construct.
Import Value.

Section WithStatic.

(** [require('../static')] and the levels of the logger library. *)
Variable static : value.
Variable levels_debug levels_log levels_error : value.

Definition has_key (k : string) (props : list (string * value)) : bool :=
  existsb (fun p => String.eqb (fst p) k) props.

Fixpoint set_prop (k : string) (v : value) (props : list (string * value))
  : list (string * value) :=
  match props with
  | [] => [(k, v)]
  | (k', v') :: rest =>
      if String.eqb k' k then (k', v) :: rest
      else (k', v') :: set_prop k v rest
  end.

(** [new Logger({ ... })] *)
Definition logger (options : list (string * value)) : value :=
  Instance "Logger"
    [("timestamp", Bool false);
     ("namespacing", Num (-1));
     ("notification",
        if has_key "log notification level" options
        then lookup_prop "log notification level" options
        else levels_debug);
     ("level",
        if has_key "log level" options
        then lookup_prop "log level" options
        else levels_log);
     ("base",
        if has_key "disable log transport" options
        then Bool (negb (truthy (lookup_prop "disable log transport"
                                             options)))
        else Bool true)].

(** [setSTDOUT(bool)], the setter of the property [stdout]; a value
    of [logger] that is no logger has no method [set]. *)
Definition setSTDOUT (bool : value) (this : gmap string value)
  : completion (gmap string value) :=
  match this !! "logger" with
  | Some (Instance "Logger" props) =>
      Normal
        (<["standardOutput" := Bool (truthy bool)]>
           (<["logger" :=
                Instance "Logger"
                  (set_prop "level"
                     (if truthy bool then levels_error else levels_log)
                     props)]> this))
  | _ => TypeError "Cannot call method 'set' of undefined"
  end.

(** [_.extend(this, options)]: every own property of [options] is
    assigned, the property [stdout] through its setter. *)
Fixpoint extend (this : gmap string value)
    (options : list (string * value))
  : completion (gmap string value) :=
  match options with
  | [] => Normal this
  | (k, v) :: rest =>
      if String.eqb k "stdout" then
        match setSTDOUT v this with
        | Normal this' => extend this' rest
        | TypeError m => TypeError m
        end
      else extend (<[k := v]> this) rest
  end.

(** [new Square(options)]: the own properties of the instance. *)
Definition Square (options : option (list (string * value)))
  : completion (gmap string value) :=
  let options := default [] options in
  let this : gmap string value :=
    <["eson" := Instance "eson" []]>
      (<["logger" := logger options]>
         (<["cache" := Instance "Expires"
                         [("expire", Num Cache.three_minutes)]]> ∅)) in
  match extend this options with
  | Normal this =>
      Normal
        (<["package" := Obj []]>
           (<["storages" := Arr []]>
              (<["middleware" := Arr []]>
                 (<["config" := static]> this))))
  | TypeError m => TypeError m
  end.

End WithStatic.

End Construct.

(** ** Concrete environments for the examples *)

Module Example.
Import Directive.

(** Stand-ins for the functions of Node's [path] on absolute POSIX
    paths without dots: the file is looked up in the directory of
    reference, and the directory of a path is what precedes its last
    slash. *)
Definition path_resolve (reference : string) (file : option string)
  : string :=
  match file with
  | Some f => reference +:+ "/" +:+ f
  | None => reference
  end.

Fixpoint after_last (sep : ascii) (s : string) (cur : string) : string :=
  match s with
  | EmptyString => Js.rev cur
  | String c r =>
      if Ascii.eqb c sep then after_last sep r EmptyString
      else after_last sep r (String c cur)
  end.

Definition path_basename (p : string) : string := after_last "/" p "".

Definition path_dirname (p : string) : string :=
  substring 0 (String.length p - String.length (path_basename p) - 1) p.

Definition path_extname (p : string) : string :=
  if existsb (Ascii.eqb ".") (list_ascii_of_string (path_basename p))
  then "." +:+ after_last "." (path_basename p) ""
  else "".

(** A table with the star style for scripts and style sheets, and an
    empty table. *)
Definition star : style := Style "/*" " *" " */".

Definition star_styles (extension : string) : option style :=
  if String.eqb extension "js" || String.eqb extension "css"
  then Some star else None.

Definition no_styles (extension : string) : option style := None.

Definition quoted (s : string) : string :=
  String Js.DQUOTE "" +:+ s +:+ String Js.DQUOTE "".

(** [// [square] @require] followed by the quoted file *)
Definition require (file : string) : string :=
  "// [square] @require " +:+ quoted file.

(** A directive as it is usually written: the comment opener, the tag,
    the statement and the quoted file, separated by single spaces. *)
Definition directive_text (opener statement file : string) : string :=
  opener +:+ " [square] @" +:+ statement +:+ " " +:+ quoted file.

Definition lines (l : list string) : string := Js.join Js.nl l.

(** Two files that include each other. *)
Definition a_js : string := lines ["var a = 1"; require "b.js"].
Definition b_js : string := lines ["var b = 2"; require "a.js"].

Definition cycle : gmap string string :=
  <["/src/a.js" := a_js]> (<["/src/b.js" := b_js]> ∅).

Definition api : Critical.env := Critical.Env false true.
Definition api_unhandled : Critical.env := Critical.Env false false.
Definition cli : Critical.env := Critical.Env true false.

Definition start : Critical.world := Critical.World [] [].

(** What [critical] is told when [b.js] is met again. *)
Definition cycle_message : string :=
  "recursive [square] import statement detected " +:+ require "b.js".

(** The resolution of [a.js] in a given mode, with the fuel that is
    enough for two files. *)
Definition resolve_cycle (e : Critical.env)
  : Critical.res string * Critical.world :=
  directive_fresh e cycle path_resolve path_dirname star_styles "/src"
    (S (size cycle)) a_js "js" "/src" start.

(** A file that is included by a text whose last line lacks a
    terminator. *)
Definition parts : gmap string string := {["/src/part.js" := "part()"]}.



(** A bundle without dependencies and without compiler. *)
Definition plain (location extension text : string) : Reduce.bundle :=
  Reduce.Bundle None
    (Reduce.Meta text extension extension None
       (path_basename location) location (path_dirname location)
       (path_basename location)).

(** The documents [reduce] builds from two scripts, the first
    declared first, with the given table of comment styles. *)
Definition reduce_scripts (styles : string -> option style)
    (first second : string)
  : Critical.res (option string * gmap string string) :=
  fst (Reduce.reduce api ∅ path_resolve path_dirname path_extname styles
         "/src" 1 ["/src/a.js"; "/src/b.js"]
         [plain "/src/a.js" "js" first; plain "/src/b.js" "js" second]
         "web" ["js"] start).

(** A stand-in for [helper.base]: the key is looked up in the
    directory of the manifest. *)
Definition helper_base (key directory : string) : string :=
  directory +:+ "/" +:+ key.

(** Modelled from the spec: [helper.weight] ([lib/helpers.js] is not
    among the sources).  A bundle without a weight of its own gets the
    number of bundles that remain to be parsed; a declared weight is
    kept. *)
Definition helper_weight (amount id : Z) : Z :=
  if (amount =? 1)%Z then id else amount.

(** Three bundles without weights, and their files. *)
Definition three : list (string * Manifest.declared) :=
  [("a.js", Manifest.Declared None "first");
   ("b.js", Manifest.Declared None "second");
   ("c.js", Manifest.Declared None "third")].


Definition three_files : gmap string string :=
  <["/src/a.js" := "a()"]>
    (<["/src/b.js" := "b()"]> (<["/src/c.js" := "c()"]> ∅)).

Definition parse (declaration : Manifest.bundles)
  : Critical.res (list Manifest.bundle * list string) :=
  fst (Manifest.parse api three_files helper_base helper_weight "/src"
         declaration start).

(** A repository on the branch [master]. *)
Definition exec (command : string) : string :=
  if String.eqb command "git branch" then "* master"
  else "commit 0123abc" +:+ Js.nl +:+ "Author: someone".

Definition fresh : Tag.state :=
  Tag.State (Cache.create Cache.three_minutes) [].

(** An instance made with options that name the private fields, as
    the test of the constructor does. *)
Definition static : Value.value :=
  Value.Obj [("license", Value.Str "MIT")].

Definition privates : list (string * Value.value) :=
  [("middleware", Value.Str "pewpew");
   ("config", Value.Str "pewpew");
   ("package", Value.Str "pewpew");
   ("stdout", Value.Bool true)].

Definition new_square : Value.completion (gmap string Value.value) :=
  Construct.Square static (Value.Num 7) (Value.Num 6) (Value.Num 3)
    (Some privates).

Definition instance : gmap string Value.value :=
  match new_square with
  | Value.Normal this => this
  | Value.TypeError _ => ∅
  end.

Definition collection (content : string) : Pipeline.collection :=
  Pipeline.Collection content "js" "web" "min".

End Example.

(** ** The middleware and storage lists *)

Module Registry.

(** A function as [has] compares it, by its name and by the text that
    [toString] gives, with its behaviour as a layer. *)
Record func := Func {
  name : string;
  source : string;
  run : Pipeline.layer
}.

(** What [use] may be called with. *)
Inductive candidate :=
| Function (f : func)
| Other (v : Value.value).

(** The list [middleware] and the errors given to the logger. *)
Record registry := Registry {
  middleware : list func;
  errors : list string
}.

(** The callback [some] of [has]. *)
Definition same (layer middleware : func) : bool :=
  String.eqb (source middleware) (source layer)
  && String.eqb (name middleware) (name layer).

(** [has(layer)] *)
Definition has (r : registry) (layer : func) : bool :=
  existsb (same layer) (middleware r).

(** [use(layer)]: the boolean it returns and the instance after it. *)
Definition use (layer : candidate) (r : registry) : bool * registry :=
  match layer with
  | Other _ =>
      (false,
       Registry (middleware r)
         (errors r ++ ["the supplied middleware isnt a valid function"]))
  | Function f =>
      if has r f then (false, r)
      else (true, Registry (middleware r ++ [f]) (errors r))
  end.

(** What [has] tells functions apart by. *)
Definition identity (f : func) : string * string := (source f, name f).

End Registry.

(** ** The license header *)

Module License.
Import Value.

(** A collection and the tags of the configuration, as objects whose
    properties hold text. *)
Definition props := list (string * string).

(** [object[key]] for an own property *)
Fixpoint lookup (key : string) (object : props) : option string :=
  match object with
  | [] => None
  | (k, v) :: rest => if String.eqb k key then Some v else lookup key rest
  end.

(** [string || fallback] *)
Definition or_else (fallback : string) (s : option string) : string :=
  match s with
  | Some (String c r) => String c r
  | _ => fallback
  end.

(** [object[key] = value] for a value that is no object.  The
    properties are only looked up afterwards, so that their order is
    of no account; [Object.prototype] drops such a value when it is
    assigned to its accessor [__proto__]. *)
Fixpoint assign {A : Type} (key : string) (value : A)
    (object : list (string * A)) : list (string * A) :=
  if String.eqb key "__proto__" then object
  else
    match object with
    | [] => [(key, value)]
    | (k, v) :: rest =>
        if String.eqb k key then (k, value) :: rest
        else (k, v) :: assign key value rest
    end.

(** [_.extend(object, source)] *)
Definition extend {A : Type} (object source : list (string * A))
  : list (string * A) :=
  foldl (fun object kv => assign (fst kv) (snd kv) object) object source.

Section WithEnvironment.

Variable commentStyles : string -> option Directive.style.

(** [createHash('md5').update(text).digest('hex')] *)
Variable md5 : string -> string.

(** The branch and the commit as [tag] reads them from the cache or
    from git, and what it takes from the clock, the process, the
    system and the instance. *)
Variable branch sha date year user host env : value.

(** [tag(collection)]: the tags of the configuration are written
    into the collection, and the collection is then laid over the
    properties that [tag] computes.  The result is the collection as
    [tag] leaves it and the object that it returns. *)
Definition tag (tags collection : props) : props * value :=
  let collection := extend collection tags in
  (collection,
   Obj (extend
          [("type", Str "min");
           ("md5", Str (md5 (or_else "" (lookup "content" collection))));
           ("branch", branch);
           ("sha", sha);
           ("ext", Str (or_else "js" (lookup "extension" collection)));
           ("date", date);
           ("year", year);
           ("user", user);
           ("host", host);
           ("env", env)]
          (map (fun kv => (fst kv, Str (snd kv))) collection))).

(** [license(collection)]; [configured] is [configuration.license]
    and [tags] is [configuration.tags].  The content and the
    extension are read from the collection after [tag] has been
    called with it.  What [tag] returns is an object, so that
    [template] takes it for its data and does not call [tag] again. *)
Definition license (configured : option string) (tags collection : props)
  : option (completion string) :=
  match configured with
  | None | Some EmptyString =>
      Some (Normal (or_else "" (lookup "content" collection)))
  | Some text =>
      match lookup "content" collection with
      | None | Some EmptyString => Some (Normal "")
      | Some _ =>
          let '(collection, bag) := tag tags collection in
          match Template.template bag text bag with
          | Some (Normal header) =>
              Some (Normal
                (Directive.commentWrap commentStyles header
                   (default "undefined" (lookup "extension" collection))
                 +:+ default "undefined" (lookup "content" collection)))
          | other => other
          end
      end
  end.

End WithEnvironment.

End License.

(** ** The filters of the command line *)

Module Cli.

(** [listing(val)] *)
Definition listing (val : string) : list string :=
  Js.split (Ascii.eqb ",") val.

(** [res[key] = value] on the object that [replace] builds; the
    object is taken by its own properties, without their order.  A
    value is text or [undefined], and [Object.prototype] drops such a
    value when it is assigned to its accessor [__proto__]. *)
Definition assign (key : string) (value : option string)
    (res : gmap string (option string)) : gmap string (option string) :=
  if String.eqb key "__proto__" then res else <[key := value]> res.

(** The callback [each] of [replace]: [kv[1]] is [None] when the key
    holds no hash. *)
Definition each (res : gmap string (option string)) (key : string)
  : gmap string (option string) :=
  let kv := Js.split (Ascii.eqb "#") key in
  assign (default "undefined" (kv !! 0)) (kv !! 1) res.

(** [replace(val)] *)
Definition replace (val : string) : gmap string (option string) :=
  foldl each ∅ (Js.split (Ascii.eqb ",") val).

(** A pair as the option wants it. *)
Definition pair (kv : string * string) : string :=
  fst kv +:+ "#" +:+ snd kv.

Definition plain (s : string) : bool :=
  Js.all (fun c => negb (Ascii.eqb c ",") && negb (Ascii.eqb c "#")) s.

End Cli.

(** ** Further examples *)

Module Sample.

(** An instance whose options name [env] twice and silence the
    output. *)
Definition configured : Value.completion (gmap string Value.value) :=
  Construct.Square Example.static (Value.Num 7) (Value.Num 6) (Value.Num 3)
    (Some [("env", Value.Str "production");
           ("env", Value.Str "whoopwhoop");
           ("stdout", Value.Bool true)]).

Definition instance : gmap string Value.value :=
  match configured with
  | Value.Normal this => this
  | Value.TypeError _ => ∅
  end.

End Sample.

(** * Properties *)

(** ** The transform pipeline *)

Section PipelineFacts.
Import Pipeline.

Lemma iterate_synced index l c tr :
  iterate index l (State c c tr)
  = (raised (l c), State (step c l) (step c l) (tr ++ [(index, c)])).
Proof.
  unfold iterate, step, raised, yep; simpl.
  destruct (l c) as [err [r|]|e]; reflexivity.
Qed.

Lemma forEachSeries_settle middleware : forall index c tr,
  exists tr',
    forEachSeries iterate index middleware (State c c tr)
    = (fst (settle middleware c),
       State (snd (settle middleware c)) (snd (settle middleware c)) tr').
Proof.
  induction middleware as [|l rest IH]; intros index c tr; simpl.
  - eauto.
  - rewrite iterate_synced. unfold error_of.
    destruct (Value.truthy (raised (l c))); simpl; eauto.
Qed.

Lemma settle_truthy middleware : forall c e,
  fst (settle middleware c) = Some e -> Value.truthy e = true.
Proof.
  induction middleware as [|l rest IH]; intros c e; simpl; [discriminate|].
  unfold error_of.
  destruct (Value.truthy (raised (l c))) eqn:Htruthy; simpl.
  - by intros [= <-].
  - apply IH.
Qed.

Lemma forEach_settle middleware c : forEach middleware c = settle middleware c.
Proof.
  unfold forEach, run.
  destruct (forEachSeries_settle middleware 0 c []) as [tr' ->].
  pose proof (settle_truthy middleware c) as Htruthy.
  destruct (settle middleware c) as [[e|] c']; simpl in *; [|reflexivity].
  by rewrite (Htruthy e eq_refl).
Qed.

Lemma settle_noop before after c :
  settle (before ++ noop :: after) c = settle (before ++ after) c.
Proof.
  revert c. induction before as [|l rest IH]; intros c; simpl.
  - reflexivity.
  - destruct (error_of (l c)); [reflexivity | apply IH].
Qed.

Lemma forEachSeries_trace middleware : forall index c tr,
  exists n,
    n <= List.length middleware
    /\ snd (forEachSeries iterate index middleware (State c c tr))
       = State (foldl step c (take n middleware))
               (foldl step c (take n middleware))
               (tr ++ map (call middleware c index) (seq 0 n))
    /\ (n = List.length middleware
        \/ is_Some (or_undefined
                      (fst (forEachSeries iterate index middleware
                              (State c c tr))))).
Proof.
  induction middleware as [|l rest IH]; intros index c tr; simpl.
  - exists 0. rewrite app_nil_r. auto.
  - rewrite iterate_synced.
    destruct (Value.truthy (raised (l c))) eqn:He.
    + exists 1. simpl. unfold call; simpl. rewrite Nat.add_0_r, He.
      repeat split; [lia | eauto].
    + destruct (IH (S index) (step c l) (tr ++ [(index, c)]))
        as (n & Hn & Hst & Hend).
      exists (S n). rewrite Hst. simpl.
      repeat split; [lia | | destruct Hend; [left; lia | by right]].
      f_equal. rewrite <- app_assoc. f_equal. simpl.
      unfold call at 2; simpl. rewrite Nat.add_0_r. f_equal.
      rewrite <- seq_shift, map_map. apply map_ext. intros i.
      unfold call; simpl. f_equal. lia.
Qed.

Lemma forEachSeries_app (l1 l2 : list layer) : forall index st,
  forEachSeries iterate index (l1 ++ l2) st
  = match forEachSeries iterate index l1 st with
    | (Some e, st') => (Some e, st')
    | (None, st') => forEachSeries iterate (index + List.length l1) l2 st'
    end.
Proof.
  induction l1 as [|l rest IH]; intros index st; simpl.
  - by rewrite Nat.add_0_r.
  - destruct (iterate index l st) as [err st'].
    destruct (Value.truthy err); [reflexivity|].
    rewrite IH. by replace (S index + List.length rest)
                     with (index + S (List.length rest)) by lia.
Qed.

Lemma settle_app (l1 l2 : list layer) : forall c,
  settle (l1 ++ l2) c
  = match settle l1 c with
    | (Some e, c') => (Some e, c')
    | (None, c') => settle l2 c'
    end.
Proof.
  induction l1 as [|l rest IH]; intros c; simpl; [reflexivity|].
  destruct (error_of (l c)); [reflexivity | apply IH].
Qed.

Lemma forEach_stops before failing after c :
  fst (forEach before c) = None ->
  Value.truthy (raised (failing (snd (forEach before c)))) = true ->
  forEach (before ++ failing :: after) c
  = (Some (raised (failing (snd (forEach before c)))),
     step (snd (forEach before c)) failing)
  /\ invoked (before ++ failing :: after) c
     = invoked before c ++ [(List.length before, snd (forEach before c))].
Proof.
  intros Hok Herr. split.
  - rewrite forEach_settle, settle_app. rewrite forEach_settle in Hok, Herr |- *.
    destruct (settle before c) as [[e|] c']; simpl in *; [discriminate|].
    unfold error_of. by rewrite Herr.
  - rewrite forEach_settle in Hok, Herr |- *. unfold invoked, run.
    rewrite forEachSeries_app.
    destruct (forEachSeries_settle before 0 c []) as [tr' Hrun].
    rewrite Hrun.
    destruct (settle before c) as [[e|] c']; simpl in *; [discriminate|].
    by rewrite iterate_synced, Herr.
Qed.

(** C2.  For every list of layers and every collection, [forEach]
    calls the layers one after the other, each with the value the
    layers before it have left; a layer that hands nothing to its
    continuation leaves the working value as it was, so that it can be
    removed from the list without changing the result; and the stages
    addSuffix X, noop, addSuffix Y turn the content C into CXY. *)
Theorem forEach_sequential_noop_transparent :
  (forall middleware c,
      exists n,
        n <= List.length middleware
        /\ invoked middleware c = map (call middleware c 0) (seq 0 n)
        /\ snd (forEach middleware c) = foldl step c (take n middleware)
        /\ (n = List.length middleware
            \/ is_Some (fst (forEach middleware c))))
  /\ (forall before after c,
        forEach (before ++ noop :: after) c = forEach (before ++ after) c)
  /\ (forall c, step c noop = c)
  /\ forEach [addSuffix "X"; noop; addSuffix "Y"] (Example.collection "C")
     = (None, Example.collection "CXY").
Proof.
  repeat split.
  - intros middleware c.
    destruct (forEachSeries_trace middleware 0 c []) as (n & Hn & Hst & He).
    exists n. unfold invoked, forEach, run in *.
    destruct (forEachSeries iterate 0 middleware (State c c []))
      as [err st]; simpl in *.
    subst st. simpl. auto.
  - intros. by rewrite !forEach_settle, settle_noop.
Qed.

Lemma forEach_goes_on before failing after c :
  fst (forEach before c) = None ->
  Value.truthy (raised (failing (snd (forEach before c)))) = false ->
  forEach (before ++ failing :: after) c
  = forEach after (step (snd (forEach before c)) failing).
Proof.
  intros Hok Hfalsy.
  rewrite !forEach_settle, settle_app. rewrite forEach_settle in Hok, Hfalsy.
  destruct (settle before c) as [[e|] c']; simpl in *; [discriminate|].
  unfold error_of. by rewrite Hfalsy.
Qed.

(** C3.  When the layers before a layer run without error and that
    layer throws or reports an error, a truthy value, [forEach] calls
    no layer after it and calls its callback with this error and with
    the working collection: the collection produced before the failing
    layer when that layer throws or hands over nothing with its error,
    and the result of the failing layer itself when it hands one
    over.  A falsy value that is thrown or reported does not end the
    run: [forEach] goes on with the layers that follow. *)
Theorem forEach_error_short_circuit before failing after c :
  fst (forEach before c) = None ->
  (forall e,
      raised (failing (snd (forEach before c))) = e ->
      Value.truthy e = true ->
      forEach (before ++ failing :: after) c
      = (Some e, step (snd (forEach before c)) failing)
      /\ invoked (before ++ failing :: after) c
         = invoked before c
           ++ [(List.length before, snd (forEach before c))]
      /\ (forall message,
            failing (snd (forEach before c)) = Throws message ->
            forEach (before ++ failing :: after) c
            = (Some message, snd (forEach before c)))
      /\ (failing (snd (forEach before c)) = Yep e None ->
          forEach (before ++ failing :: after) c
          = (Some e, snd (forEach before c)))
      /\ (forall result,
            failing (snd (forEach before c)) = Yep e (Some result) ->
            forEach (before ++ failing :: after) c = (Some e, result)))
  /\ (Value.truthy (raised (failing (snd (forEach before c)))) = false ->
      forEach (before ++ failing :: after) c
      = forEach after (step (snd (forEach before c)) failing)).
Proof.
  intros Hok. split; [|by apply forEach_goes_on].
  intros e <- Herr.
  destruct (forEach_stops before failing after c Hok Herr) as [-> ->].
  split; [reflexivity|]. split; [reflexivity|].
  unfold step. split; [|split].
  - intros message Hthrow. by rewrite Hthrow.
  - intros Hyep. by rewrite Hyep.
  - intros result Hyep. by rewrite Hyep.
Qed.

Lemma forEach_error_short_circuit_witness :
  forEach [ok; throws (Value.Str "boom"); addSuffix "never"]
          (Example.collection "C")
  = (Some (Value.Str "boom"), Example.collection "C")
  /\ map fst (invoked [ok; throws (Value.Str "boom"); addSuffix "never"]
                      (Example.collection "C")) = [0; 1].
Proof.
  destruct (forEach_error_short_circuit [ok] (throws (Value.Str "boom"))
              [addSuffix "never"] (Example.collection "C") eq_refl)
    as [Hstops _].
  destruct (Hstops (Value.Str "boom") eq_refl eq_refl)
    as (Hres & Hcalls & _).
  split; [exact Hres | exact (f_equal (map fst) Hcalls)].
Defined.

(** C3 as stated fails in two ways.  A layer that reports an error and
    hands over a result with it makes that result the collection of the
    callback, not the one produced by the layer before it.  A layer
    that throws a falsy value, here the empty string, does not end the
    run: the next layer is called and the callback receives no
    error. *)
Lemma forEach_failing_result_and_falsy_error :
  forEach [ok; reports (Value.Str "boom") (Example.collection "half");
           addSuffix "never"] (Example.collection "C")
  = (Some (Value.Str "boom"), Example.collection "half")
  /\ forEach [ok] (Example.collection "C") = (None, Example.collection "C")
  /\ Example.collection "half" <> Example.collection "C"
  /\ forEach [ok; throws (Value.Str ""); addSuffix "Y"]
             (Example.collection "C")
     = (None, Example.collection "CY")
  /\ map fst (invoked [ok; throws (Value.Str ""); addSuffix "Y"]
                      (Example.collection "C")) = [0; 1; 2].
Proof. repeat split; discriminate. Qed.

End PipelineFacts.

(** ** Strings *)

Section JsFacts.

Lemma append_cons x (a b : string) : String x a +:+ b = String x (a +:+ b).
Proof. reflexivity. Qed.

Lemma append_empty_l (b : string) : "" +:+ b = b.
Proof. reflexivity. Qed.

Lemma append_assoc (a b c : string) : (a +:+ b) +:+ c = a +:+ (b +:+ c).
Proof.
  induction a as [|x a IH]; [reflexivity|].
  by rewrite !append_cons, IH.
Qed.

Lemma append_empty_r (a : string) : a +:+ "" = a.
Proof.
  induction a as [|x a IH]; [reflexivity|]. by rewrite append_cons, IH.
Qed.

Lemma rev_append_app s : forall acc,
  Js.rev_append s acc = Js.rev_append s "" +:+ acc.
Proof.
  induction s as [|c s IH]; intros acc; simpl; [reflexivity|].
  rewrite (IH (String c acc)), (IH (String c "")).
  by rewrite append_assoc.
Qed.

Lemma rev_cons c s : Js.rev (String c s) = Js.rev s +:+ String c "".
Proof. unfold Js.rev; simpl. apply rev_append_app. Qed.

Lemma rev_empty s : Js.rev s = "" -> s = "".
Proof.
  destruct s as [|c s]; [reflexivity|]. rewrite rev_cons.
  destruct (Js.rev s); discriminate.
Qed.

Lemma last_cons c d s : Js.last (String c (String d s)) = Js.last (String d s).
Proof.
  unfold Js.last. rewrite (rev_cons c).
  destruct (Js.rev (String d s)) eqn:Hr; [|reflexivity].
  apply rev_empty in Hr. discriminate.
Qed.

Lemma get_last s : String.get (String.length s - 1) s = Js.last s.
Proof.
  induction s as [|c [|d s] IH]; [reflexivity..|].
  rewrite last_cons, <- IH. simpl. by rewrite Nat.sub_0_r.
Qed.

Lemma charAt_last s : Js.charAt s (Js.length s - 1) = Js.last s.
Proof.
  unfold Js.charAt, Js.length. destruct s as [|c s]; [reflexivity|].
  destruct (Z.ltb_spec (Z.of_nat (String.length (String c s)) - 1) 0)
    as [Hneg|_]; [simpl in Hneg; lia|].
  rewrite <- get_last. f_equal. simpl. lia.
Qed.

(** *** [trim] is idempotent *)

Lemma rev_app (a b : string) : Js.rev (a +:+ b) = Js.rev b +:+ Js.rev a.
Proof.
  induction a as [|x a IH].
  - by rewrite append_empty_l, append_empty_r.
  - by rewrite append_cons, !rev_cons, IH, append_assoc.
Qed.

Lemma rev_involutive (s : string) : Js.rev (Js.rev s) = s.
Proof.
  induction s as [|x s IH]; [reflexivity|].
  by rewrite rev_cons, rev_app, IH.
Qed.

Lemma trimLeft_no_leading_space s : Js.no_leading_space (Js.trimLeft s).
Proof.
  induction s as [|c s IH]; simpl; [exact I|].
  destruct (Js.is_space c) eqn:Hc; [exact IH | exact Hc].
Qed.

Lemma trimLeft_fixed s : Js.no_leading_space s -> Js.trimLeft s = s.
Proof. destruct s as [|c s]; simpl; [reflexivity | by intros ->]. Qed.

Lemma trimLeft_suffix s : exists spaces, s = spaces +:+ Js.trimLeft s.
Proof.
  induction s as [|c s [spaces IH]]; simpl; [by exists ""|].
  destruct (Js.is_space c).
  - exists (String c spaces). by rewrite append_cons, <- IH.
  - by exists "".
Qed.

Lemma no_leading_space_prefix (a b : string) :
  Js.no_leading_space (a +:+ b) -> Js.no_leading_space a.
Proof. destruct a as [|c a]; [intros; exact I | exact id]. Qed.

Lemma trimRight_no_leading_space s :
  Js.no_leading_space s -> Js.no_leading_space (Js.trimRight s).
Proof.
  intros Hs. unfold Js.trimRight.
  destruct (trimLeft_suffix (Js.rev s)) as [spaces Hrev].
  apply (f_equal Js.rev) in Hrev.
  rewrite rev_involutive, rev_app in Hrev. rewrite Hrev in Hs.
  by apply no_leading_space_prefix in Hs.
Qed.

Lemma trim_idempotent s : Js.trim (Js.trim s) = Js.trim s.
Proof.
  unfold Js.trim.
  rewrite (trimLeft_fixed (Js.trimRight (Js.trimLeft s)))
    by apply trimRight_no_leading_space, trimLeft_no_leading_space.
  unfold Js.trimRight. rewrite rev_involutive.
  by rewrite (trimLeft_fixed (Js.trimLeft _))
    by apply trimLeft_no_leading_space.
Qed.

End JsFacts.

(** ** The reducer *)

Section ReduceFacts.
Import Critical Directive Reduce.

Lemma semicolon_trimmed m :
  Js.trim m = m ->
  semicolon m = if closes m then m +:+ ";" else m.
Proof.
  intros Htrim. unfold semicolon, closes. rewrite Htrim, charAt_last.
  destruct m as [|c m]; [reflexivity|]. simpl String.eqb.
  destruct (Js.last (String c m)) as [char|]; [|reflexivity].
  destruct (Ascii.eqb_spec char ";") as [->|]; [reflexivity|].
  reflexivity.
Qed.

Lemma alter_present {A} (f : A -> A) (m : gmap string A) k v :
  m !! k = Some v -> alter f k m = <[k := f v]> m.
Proof.
  intros Hk. apply map_eq. intros j. destruct (decide (k = j)) as [<-|Hne].
  - by rewrite lookup_alter_eq, lookup_insert_eq, Hk.
  - by rewrite lookup_alter_ne, lookup_insert_ne.
Qed.

(** C1, as amended.  When [reduce] appends the fragment of a bundle
    to the script document, it puts a semicolon after the document
    built so far only if that document ends with a closing parenthesis
    or brace; the document is then joined to the fragment by a line
    feed and trimmed, and it stays trimmed.  Two scripts f() and g()
    give f(); and g() on two lines, and the scripts var a=1 and
    var b=2 are joined without any terminator. *)
Theorem reduce_terminator_after_closing :
  (forall e fs path_resolve path_dirname styles package_path fuel platform
          extensions totals memo count b text w w',
      output (bundle_meta b) = "js" ->
      "js" ∈ extensions ->
      Js.trim (default "" (memo !! "js")) = default "" (memo !! "js") ->
      preprocess e fs path_resolve path_dirname styles package_path fuel b
        (details_of totals count (extension (bundle_meta b)) platform) w
      = (Ret (inr text), w') ->
      let m := default "" (memo !! "js") in
      let joined :=
        Js.trim ((if closes m then m +:+ ";" else m) +:+ Js.nl +:+ text) in
      reduce_step e fs path_resolve path_dirname styles package_path fuel
        platform extensions totals (memo, count) b w
      = (Ret (None, (<["js" := joined]> memo,
                     alter (fun c => (c - 1)%Z) (extension (bundle_meta b))
                           count)), w')
      /\ Js.trim joined = joined)
  /\ Example.reduce_scripts Example.no_styles "f()" "g()"
     = Ret (None, {["js" := "f();" +:+ Js.nl +:+ "g()"]})
  /\ Example.reduce_scripts Example.no_styles "var a=1" "var b=2"
     = Ret (None, {["js" := "var a=1" +:+ Js.nl +:+ "var b=2"]}).
Proof.
  split; [|split; vm_compute; reflexivity].
  intros e fs path_resolve path_dirname styles package_path fuel platform
         extensions totals memo count b text w w' Hout Hin Htrim Hpre m joined.
  split; [|apply trim_idempotent].
  unfold reduce_step. rewrite Hout.
  rewrite bool_decide_eq_true_2 by exact Hin. simpl negb. cbv iota.
  unfold bind. 
  set (memo1 := match memo !! "js" with
                | Some (String _ _) => memo
                | _ => <["js" := ""]> memo
                end).
  assert (memo1 !! "js" = Some m
          /\ <["js" := joined]> memo1 = <["js" := joined]> memo)
    as [Hm1 Hins].
  { subst memo1 m. destruct (memo !! "js") as [[|c s]|] eqn:Hjs; simpl.
    - by rewrite lookup_insert_eq, insert_insert_eq.
    - by rewrite Hjs.
    - by rewrite lookup_insert_eq, insert_insert_eq. }
  change (negb true) with false. cbv iota beta. rewrite Hpre.
  change ("js" =? "js")%string with true. cbv iota.
  unfold ret. do 3 f_equal.
  rewrite (alter_present semicolon memo1 "js" m Hm1).
  rewrite (alter_present _ _ "js" (semicolon m)) by apply lookup_insert_eq.
  rewrite insert_insert_eq, semicolon_trimmed by exact Htrim.
  f_equal. exact Hins.
Qed.

Lemma reduce_terminator_after_closing_witness :
  reduce_step Example.api ∅ Example.path_resolve Example.path_dirname
    Example.no_styles "/src" 1 "web" ["js"] {["js" := 2%Z]}
    ({["js" := "f()"]}, {["js" := 1%Z]})
    (Example.plain "/src/b.js" "js" "g()") Example.start
  = (Ret (None, ({["js" := "f();" +:+ Js.nl +:+ "g()"]}, {["js" := 0%Z]})),
     Example.start).
Proof.
  destruct reduce_terminator_after_closing as [Hstep _].
  destruct (Hstep Example.api ∅ Example.path_resolve Example.path_dirname
              Example.no_styles "/src" 1 "web" ["js"] {["js" := 2%Z]}
              {["js" := "f()"]} {["js" := 1%Z]}
              (Example.plain "/src/b.js" "js" "g()") "g()"
              Example.start Example.start)
    as [Heq _].
  - reflexivity.
  - apply list_elem_of_here.
  - vm_compute. reflexivity.
  - vm_compute. reflexivity.
  - rewrite Heq. vm_compute. reflexivity.
Defined.

(** C1 as stated fails: no terminator is put between, or after, two
    scripts that end with a digit. *)
Lemma reduce_no_terminator_after_digit :
  Example.reduce_scripts Example.no_styles "var a=1" "var b=2"
  <> Ret (None, {["js" := "var a=1;" +:+ Js.nl +:+ "var b=2;"]})
  /\ Example.reduce_scripts Example.star_styles "var a=1" "var b=2"
     <> Ret (None, {["js" := "var a=1;" +:+ Js.nl +:+ "var b=2;"]}).
Proof. split; vm_compute; discriminate. Qed.

End ReduceFacts.

(** ** The directive resolver *)

Section DirectiveFacts.
Import Critical Directive.

Variable e : env.
Variable fs : gmap string string.
Variable path_resolve : string -> option string -> string.
Variable path_dirname : string -> string.
Variable commentStyles : string -> option style.
Variable package_path : string.

#[local] Abbreviation unseen := (unseen fs).
#[local] Abbreviation well_behaved := (well_behaved fs).
#[local] Abbreviation insert := (insert e fs path_resolve path_dirname commentStyles).
#[local] Abbreviation scan := (scan e fs path_resolve path_dirname commentStyles).
#[local] Abbreviation scan_all := (scan_all e fs path_resolve path_dirname commentStyles).
#[local] Abbreviation directive_body :=
  (directive_body e fs path_resolve path_dirname commentStyles package_path).
#[local] Abbreviation directive :=
  (directive e fs path_resolve path_dirname commentStyles package_path).

Lemma unseen_mono w w' : seen w ⊆ seen w' -> unseen w' <= unseen w.
Proof.
  intros Hsub. unfold Directive.unseen. apply subseteq_size.
  intros x. rewrite !elem_of_difference, !elem_of_list_to_set.
  intros [Hdom Hnot]. split; [exact Hdom | intros Hin; apply Hnot, Hsub, Hin].
Qed.

Lemma unseen_push w location :
  is_Some (fs !! location) -> location ∉ seen w ->
  unseen (World (seen w ++ [location]) (criticals w)) < unseen w.
Proof.
  intros Hex Hnew. unfold Directive.unseen. apply subset_size. simpl.
  split.
  - intros x. rewrite !elem_of_difference, !elem_of_list_to_set.
    intros [Hdom Hnot]. split; [exact Hdom|].
    intros Hin. apply Hnot. apply elem_of_app. by left.
  - intros Hsub. specialize (Hsub location).
    rewrite !elem_of_difference, !elem_of_list_to_set, elem_of_dom in Hsub.
    destruct Hsub as [_ Hnot]; [by split|].
    apply Hnot. apply elem_of_app. right. apply list_elem_of_here.
Qed.

Lemma critical_returns message w :
  seen (snd (critical e message w)) = seen w
  /\ fst (critical e message w) <> OutOfFuel.
Proof.
  unfold critical. destruct (cli e), (handled e); simpl; split; done.
Qed.

Lemma critical_then_false message w :
  seen w ⊆ seen (snd ((do _ <- critical e message; ret "false") w))
  /\ fst ((do _ <- critical e message; ret "false") w) <> OutOfFuel.
Proof.
  unfold bind, critical, ret.
  destruct (cli e), (handled e); simpl; split; done.
Qed.

(** [insert] case by case. *)
Lemma insert_cases rec extension reference m w :
  let location := path_resolve reference (m_file m) in
  insert rec extension reference m w
  = if negb (existsSync fs location) then
      (do _ <- critical e
             ("[square] @" +:+ m_statement m +:+ " statement "
              +:+ undefined_or (m_file m) +:+ " does not exist");
       ret "false") w
    else if bool_decide (location ∈ seen w) then
      (do _ <- critical e (recursion_detected m); ret "false") w
    else
      match fs !! location with
      | Some content =>
          rec (commentWrap commentStyles
                 ("[square] directive: " +:+ location) extension
               +:+ Js.trim content)
              extension (path_dirname location)
              (World (seen w ++ [location]) (criticals w))
      | None =>
          (Fail (Thrown ("ENOENT, no such file or directory " +:+ location)),
           World (seen w ++ [location]) (criticals w))
      end.
Proof.
  intros location. unfold Directive.insert. fold location.
  destruct (negb (existsSync fs location)); [reflexivity|].
  unfold bind at 1, get_seen.
  destruct (bool_decide (location ∈ seen w)); [reflexivity|].
  unfold bind, push_seen, readFileSync, ret, throw.
  by destruct (fs !! location).
Qed.

Lemma insert_well_behaved n rec extension reference m w :
  well_behaved n rec ->
  seen w ⊆ seen (snd (insert rec extension reference m w))
  /\ (unseen w < S n ->
      fst (insert rec extension reference m w) <> OutOfFuel).
Proof.
  intros Hrec. rewrite insert_cases.
  set (location := path_resolve reference (m_file m)).
  destruct (existsSync fs location) eqn:Hex; simpl negb; cbv iota.
  2: { destruct (critical_then_false
                   ("[square] @" +:+ m_statement m +:+ " statement "
                    +:+ undefined_or (m_file m) +:+ " does not exist") w);
       auto. }
  apply bool_decide_eq_true in Hex.
  destruct (bool_decide (location ∈ seen w)) eqn:Hseen.
  { destruct (critical_then_false (recursion_detected m) w); auto. }
  apply bool_decide_eq_false in Hseen.
  pose proof Hex as [content Hcontent]. rewrite Hcontent.
  set (w1 := World (seen w ++ [location]) (criticals w)).
  destruct (Hrec (commentWrap commentStyles
                    ("[square] directive: " +:+ location) extension
                  +:+ Js.trim content)
                 extension (path_dirname location) w1) as [Hsub Hfuel].
  split.
  - intros x Hx. apply Hsub. simpl. apply elem_of_app. by left.
  - intros Hlt. apply Hfuel.
    assert (unseen w1 < unseen w) by (apply unseen_push; eauto).
    lia.
Qed.

Lemma scan_well_behaved n rec extension reference assemble index line w :
  well_behaved n rec ->
  seen w ⊆ seen (snd (scan rec extension reference assemble index line w))
  /\ (unseen w < S n ->
      fst (scan rec extension reference assemble index line w)
      <> OutOfFuel).
Proof.
  intros Hrec. unfold Directive.scan.
  destruct (reqparse_exec line) as [m|]; [|by split].
  unfold bind, ret.
  destruct (insert_well_behaved n rec extension reference m w Hrec)
    as [Hsub Hfuel].
  destruct (insert rec extension reference m w) as [[inserted|err|] w'];
    simpl in *; split;
    first [assumption | done | intros Hlt; by destruct (Hfuel Hlt)].
Qed.

Lemma scan_all_well_behaved n rec extension reference lines :
  well_behaved n rec ->
  forall assemble index w,
    seen w
    ⊆ seen (snd (scan_all rec extension reference assemble index lines w))
    /\ (unseen w < S n ->
        fst (scan_all rec extension reference assemble index lines w)
        <> OutOfFuel).
Proof.
  intros Hrec. induction lines as [|line rest IH]; intros assemble index w.
  - by split.
  - simpl. unfold bind.
    destruct (scan_well_behaved n rec extension reference assemble index
                line w Hrec) as [Hsub Hfuel].
    destruct (scan rec extension reference assemble index line w)
      as [[assemble'|err|] w']; simpl in *;
      [|by split|split; [done | intros Hlt; by destruct (Hfuel Hlt)]].
    destruct (IH assemble' (S index) w') as [Hsub' Hfuel'].
    split; [by etrans|].
    intros Hlt. apply Hfuel'.
    pose proof (unseen_mono w w' Hsub). lia.
Qed.

Lemma directive_body_well_behaved n rec :
  well_behaved n rec -> well_behaved (S n) (directive_body rec).
Proof.
  intros Hrec data extension reference w. unfold Directive.directive_body.
  set (reference' := if (reference =? "")%string then package_path
                     else reference).
  destruct (scan_all_well_behaved n rec extension reference'
              (Js.split is_line_terminator data) Hrec [] 0 w)
    as [Hsub Hfuel].
  unfold bind, ret.
  destruct (scan_all rec extension reference' [] 0
              (Js.split is_line_terminator data) w)
    as [[assemble|err|] w']; simpl in *; split;
    first [assumption | done | intros Hlt; by destruct (Hfuel Hlt)].
Qed.

Lemma directive_well_behaved n : well_behaved n (directive n).
Proof.
  induction n as [|n IH].
  - intros data extension reference w. simpl. split; [done | lia].
  - apply (directive_body_well_behaved n _ IH).
Qed.

Lemma directive_returns fuel data extension reference w :
  size fs < fuel ->
  fst (directive fuel data extension reference w) <> OutOfFuel.
Proof.
  intros Hfuel.
  apply (directive_well_behaved fuel data extension reference w).
  unfold Directive.unseen.
  assert (dom fs ∖ list_to_set (seen w) ⊆ dom fs) as Hsub
    by (intros x; rewrite elem_of_difference; tauto).
  apply subseteq_size in Hsub. rewrite size_dom in Hsub. lia.
Qed.

(** [prev] finds the nearest entry before [index] that is neither
    blank nor a comment, and returns it trimmed. *)
Lemma prev_nearest index lines last_line last_index :
  prev index lines = Some (last_line, last_index) ->
  last_index < index
  /\ (exists raw, lines !! last_index = Some raw /\ last_line = Js.trim raw)
  /\ last_line <> ""
  /\ is_comment last_line = false
  /\ (forall j raw, last_index < j < index -> lines !! j = Some raw ->
        Js.trim raw = "" \/ is_comment (Js.trim raw) = true).
Proof.
  induction index as [|i IH]; simpl; [discriminate|].
  destruct (lines !! i) as [l|] eqn:Hl; [|discriminate].
  destruct (String.eqb_spec (Js.trim l) "") as [Hblank|Hblank]; simpl.
  - intros Hprev. destruct (IH Hprev) as (Hlt & Hraw & Hne & Hc & Hbetween).
    repeat split; [lia | done..|].
    intros j raw Hj Hjraw. destruct (decide (j = i)) as [->|].
    + left. congruence.
    + apply (Hbetween j raw); [lia | done].
  - destruct (is_comment (Js.trim l)) eqn:Hcomment; simpl.
    + intros Hprev.
      destruct (IH Hprev) as (Hlt & Hraw & Hne & Hc & Hbetween).
      repeat split; [lia | done..|].
      intros j raw Hj Hjraw. destruct (decide (j = i)) as [->|].
      * right. congruence.
      * apply (Hbetween j raw); [lia | done].
    + intros [= <- <-]. repeat split; [lia | eauto | done..|].
      intros j raw Hj. lia.
Qed.











End DirectiveFacts.

(** C4.  Whatever the file system and the text, the resolver returns:
    the depth of the inclusions is bounded by the number of files.  As
    soon as the file of a directive resolves to a path that [seen]
    holds, [insert] reports the recursion through [critical] and reads
    and resolves nothing more.  When two files include each other, the
    second visit of the first inclusion is reported: the command line
    tool exits, the library throws the error or, with a listener for
    it, emits it. *)
Theorem directive_cycle_detected :
  (forall e fs path_resolve path_dirname styles package_path
          data extension reference w,
      fst (Directive.directive e fs path_resolve path_dirname styles
             package_path (S (size fs)) data extension reference w)
      <> Critical.OutOfFuel)
  /\ (forall e fs path_resolve path_dirname styles rec
             extension reference m w,
        Directive.existsSync fs (path_resolve reference (Directive.m_file m))
        = true ->
        path_resolve reference (Directive.m_file m) ∈ Critical.seen w ->
        Directive.insert e fs path_resolve path_dirname styles rec
          extension reference m w
        = (do _ <- Critical.critical e (Directive.recursion_detected m);
           Critical.ret "false") w)
  /\ Example.resolve_cycle Example.cli
     = (Critical.Fail (Critical.Exit 1),
        Critical.World ["/src/b.js"; "/src/a.js"] [Example.cycle_message])
  /\ Example.resolve_cycle Example.api_unhandled
     = (Critical.Fail (Critical.Thrown Example.cycle_message),
        Critical.World ["/src/b.js"; "/src/a.js"] [Example.cycle_message])
  /\ snd (Example.resolve_cycle Example.api)
     = Critical.World ["/src/b.js"; "/src/a.js"] [Example.cycle_message].
Proof.
  split; [|split; [|repeat split; vm_compute; reflexivity]].
  - intros. apply directive_returns. lia.
  - intros e fs path_resolve path_dirname styles rec extension reference m w
           Hex Hseen.
    rewrite insert_cases, Hex. simpl negb. cbv iota.
    by rewrite bool_decide_eq_true_2.
Qed.

Lemma directive_cycle_detected_witness :
  Directive.insert Example.api Example.cycle Example.path_resolve
    Example.path_dirname Example.star_styles
    (fun _ _ _ => Critical.out_of_fuel) "js" "/src"
    (Directive.ReqMatch "" (Example.require "b.js") "//" "require"
       (Some "b.js") "")
    (Critical.World ["/src/b.js"; "/src/a.js"] [])
  = (Critical.Ret "false",
     Critical.World ["/src/b.js"; "/src/a.js"] [Example.cycle_message]).
Proof.
  destruct directive_cycle_detected as (_ & Hinsert & _).
  rewrite Hinsert.
  - reflexivity.
  - vm_compute. reflexivity.
  - vm_compute. apply list_elem_of_here.
Defined.




(** ** The manifest *)

Section ManifestFacts.
Import Critical Manifest.

Variable e : env.
Variable fs : gmap string string.
Variable helper_base : string -> string -> string.
Variable helper_weight : Z -> Z -> Z.
Variable struct_path : string.

#[local] Abbreviation parse :=
  (Manifest.parse e fs helper_base helper_weight struct_path).
#[local] Abbreviation forEach :=
  (Manifest.forEach e fs helper_base helper_weight struct_path).
#[local] Abbreviation each :=
  (Manifest.each e fs helper_base helper_weight struct_path).

Lemma convert_array file rest w :
  convert (BundleArray (file :: rest)) w
  = (match rest with
     | [] => Ret Undefined
     | second :: _ =>
         Fail (Thrown ("TypeError: Cannot set property '" +:+ second
                       +:+ "' of undefined"))
     end, w).
Proof. by destruct rest. Qed.

(** C5, what the code does.  The callback that [parse] gives to
    [reduce] returns nothing, so an array of files is never turned
    into a map: with one file the bundle becomes [undefined], with
    more the second store throws, and [parse] ends with a TypeError
    in both cases. *)
Theorem parse_array_of_files_throws :
  forall file rest w,
    parse (BundleArray (file :: rest)) w
    = (Fail (Thrown
         match rest with
         | [] => "TypeError: Object.keys called on non-object"
         | second :: _ =>
             "TypeError: Cannot set property '" +:+ second
             +:+ "' of undefined"
         end), w).
Proof.
  intros file rest w. unfold Manifest.parse, bind.
  rewrite convert_array. by destruct rest.
Qed.

(** *** The sort *)

Lemma sort_insert_perm {A} (cmp : A -> A -> Z) x l :
  sort_insert cmp x l ≡ₚ x :: l.
Proof.
  induction l as [|y rest IH]; simpl; [reflexivity|].
  destruct (cmp y x <=? 0)%Z; [|reflexivity].
  rewrite IH. apply Permutation_swap.
Qed.




Lemma sort_perm {A} (cmp : A -> A -> Z) l : sort cmp l ≡ₚ l.
Proof.
  unfold sort. rewrite <- (app_nil_l l) at 2. generalize (@nil A).
  induction l as [|x l IH]; intros acc; simpl.
  - by rewrite app_nil_r.
  - rewrite IH, sort_insert_perm. simpl. apply Permutation_middle.
Qed.


(** *** The loop over the bundles *)

Lemma each_cases p entry w :
  each p entry w
  = if bool_decide (is_Some (fs !! helper_base (fst entry) struct_path))
    then (Ret (true,
               Progress (tree p ++ [bundle_at helper_base helper_weight
                                      struct_path (size p) 0 entry])
                        (files p ++ [helper_base (fst entry) struct_path])
                        (size p - 1)), w)
    else (do _ <- critical e
                ("Duuuude wtf, you specified bundle "
                 +:+ helper_base (fst entry) struct_path
                 +:+ ", but that file doesnt exist");
          ret (false, p)) w.
Proof.
  destruct entry as [location_key b]. unfold Manifest.each. simpl fst.
  destruct (bool_decide _); simpl negb; cbv iota; [|reflexivity].
  unfold ret, bundle_at. simpl. by rewrite Z.sub_0_r.
Qed.










End ManifestFacts.



(** ** Templates *)

Section TemplateFacts.
Import Value Template.

(** The object that [this.tag()] returns. *)
Variable tag : value.

Lemma walk_missing a b ka kb rest result :
  segment_key a = Some ka ->
  ka ∉ object_prototype ->
  segment_key b = Some kb ->
  walk (a :: b :: rest) result (Obj [])
  = Some (TypeError ("Cannot read property '" +:+ kb +:+ "' of undefined")).
Proof.
  intros Ha Hka Hb. cbn [walk]. rewrite Ha. cbn [get own_prop].
  rewrite bool_decide_eq_false_2 by exact Hka.
  by rewrite Hb.
Qed.

(** C6, what the code does.  A placeholder with a dotted path whose
    first segment is missing makes [template] throw: the loop of
    [getObjectByKey] reads the next segment from [undefined].  This
    holds for every first segment that the empty object neither owns
    nor inherits.  A path that resolves is replaced by its value, and
    a missing key without a dot by the empty string. *)
Theorem template_missing_segment_throws :
  template tag "{a.b}" (Obj [])
  = Some (TypeError "Cannot read property 'b' of undefined")
  /\ (forall a b ka kb rest result,
        segment_key a = Some ka ->
        ka ∉ object_prototype ->
        segment_key b = Some kb ->
        walk (a :: b :: rest) result (Obj [])
        = Some (TypeError ("Cannot read property '" +:+ kb
                           +:+ "' of undefined")))
  /\ template tag "{a.b}" (Obj [("a", Obj [("b", Str "ok")])])
     = Some (Normal "ok")
  /\ template tag "{missing}" (Obj []) = Some (Normal "").
Proof.
  split; [vm_compute; reflexivity|].
  split; [intros; by eapply walk_missing|].
  split; vm_compute; reflexivity.
Qed.

End TemplateFacts.

(** ** The constructor *)

Section ConstructFacts.
Import Value Construct.

Variable static : value.
Variable levels_debug levels_log levels_error : value.

(** C10.  Whatever the options are, an instance that [Square]
    constructs has the static configuration as [config], empty lists
    as [middleware] and [storages], and an empty object as
    [package]. *)
Theorem Square_private_fields options this :
  Square static levels_debug levels_log levels_error options = Normal this ->
  this !! "config" = Some static
  /\ this !! "middleware" = Some (Arr [])
  /\ this !! "storages" = Some (Arr [])
  /\ this !! "package" = Some (Obj []).
Proof.
  unfold Square.
  destruct (extend _ _ _ _) as [extended|message]; [|discriminate].
  intros [= <-]. by simplify_map_eq.
Qed.

(** The constructor returns unless a setter fails: without the option
    [stdout] there is always an instance. *)
Lemma extend_without_stdout options : forall this,
  has_key "stdout" options = false ->
  exists extended,
    extend levels_log levels_error this options = Normal extended.
Proof.
  induction options as [|[k v] rest IH]; intros this Hkey; simpl;
    [eauto|].
  simpl in Hkey. destruct (String.eqb k "stdout"); [discriminate|].
  apply IH, Hkey.
Qed.

End ConstructFacts.

Lemma Square_private_fields_witness :
  Example.new_square = Value.Normal Example.instance
  /\ Example.instance !! "config" = Some Example.static
  /\ Example.instance !! "middleware" = Some (Value.Arr [])
  /\ Example.instance !! "storages" = Some (Value.Arr [])
  /\ Example.instance !! "package" = Some (Value.Obj []).
Proof.
  assert (Example.new_square = Value.Normal Example.instance) as Hnew
    by (vm_compute; reflexivity).
  split; [exact Hnew|].
  exact (Square_private_fields _ _ _ _ _ _ Hnew).
Defined.

(** ** The tags *)

Section TagFacts.
Import Tag.

Variable exec : string -> string.

Lemma tag_first ttl running first log :
  tag exec first (State (Cache.Cache ttl running ∅) log)
  = (vcs_tags exec,
     State (Cache.Cache ttl running (stored exec first))
           (log ++ ["git branch"; "git show -s"])).
Proof.
  unfold tag, Cache.has, Cache.get, Cache.set. simpl.
  rewrite lookup_empty. simpl.
  rewrite lookup_insert_ne, lookup_empty by done. simpl.
  by rewrite <- app_assoc.
Qed.

Lemma tag_cached ttl running first now log :
  (now - first < ttl)%Z ->
  tag exec now (State (Cache.Cache ttl running (stored exec first)) log)
  = (vcs_tags exec,
     State (Cache.Cache ttl running (stored exec first)) log).
Proof.
  intros Halive. apply Z.ltb_lt in Halive.
  unfold tag, Cache.has, Cache.get, Cache.alive, stored.
  cbn [cache executed Cache.entries Cache.ttl].
  rewrite lookup_insert_ne, !lookup_insert_eq by done.
  cbn [Cache.created Cache.value]. rewrite Halive.
  cbn [negb cache Cache.entries Cache.ttl].
  rewrite lookup_insert_eq. cbn [Cache.created Cache.value].
  by rewrite Halive.
Qed.

Lemma tag_calls_cached ttl running first log rest :
  Forall (fun now => (now - first < ttl)%Z) rest ->
  tag_calls exec rest
    (State (Cache.Cache ttl running (stored exec first)) log)
  = (replicate (List.length rest) (vcs_tags exec),
     State (Cache.Cache ttl running (stored exec first)) log).
Proof.
  induction 1 as [|now rest Hnow _ IH]; simpl; [reflexivity|].
  by rewrite tag_cached, IH.
Qed.

(** C9, as amended.  In a build, the first call of [tag] executes the
    two commands and stores their outputs.  Every later call made
    before the time to live of the cache has passed since the first
    one executes nothing and returns the same branch and commit, so
    that the build executes each command once. *)
Theorem tag_cached_until_expiry st first rest :
  Forall (fun now => (now - first < Cache.ttl (cache st))%Z) rest ->
  build exec (first :: rest) st
  = (replicate (S (List.length rest)) (vcs_tags exec),
     State (Cache.stop (cache st))
           (executed st ++ ["git branch"; "git show -s"])).
Proof.
  intros Halive. unfold build, Cache.start. cbn [tag_calls cache executed].
  rewrite tag_first, (tag_calls_cached _ _ _ _ _ Halive).
  reflexivity.
Qed.

End TagFacts.

Lemma tag_cached_until_expiry_witness :
  Tag.build Example.exec [0; 1000; 179999]%Z Example.fresh
  = (replicate 3 (Tag.Tags (Some "master") (Some "0123abc")),
     Tag.State (Cache.Cache Cache.three_minutes false ∅)
               ["git branch"; "git show -s"]).
Proof.
  rewrite (tag_cached_until_expiry Example.exec Example.fresh 0
             [1000; 179999]%Z).
  - reflexivity.
  - repeat constructor.
Defined.

(** C9 as stated fails: a call of [tag] three minutes after the first
    one in the same build finds the entries expired and executes both
    commands again. *)
Lemma tag_executes_again_after_expiry :
  Tag.executed (snd (Tag.build Example.exec [0; 180000]%Z Example.fresh))
  = ["git branch"; "git show -s"; "git branch"; "git show -s"]
  /\ ~ Tag.count "git branch"
         (Tag.executed
            (snd (Tag.build Example.exec [0; 180000]%Z Example.fresh))) <= 1.
Proof. split; [reflexivity | vm_compute; lia]. Qed.

(** * Further properties *)

(** ** The transform pipeline, continued *)

Section PipelineMore.
Import Pipeline.

(** X1.  Running two lists of layers one after the other is running
    their concatenation: when the first list ends without error the
    second starts from its collection, and when it ends with an error
    the second list is not run at all. *)
Theorem forEach_concatenation (first second : list layer) (c : collection) :
  forEach (first ++ second) c
  = match forEach first c with
    | (Some e, c') => (Some e, c')
    | (None, c') => forEach second c'
    end.
Proof.
  rewrite !forEach_settle, settle_app.
  destruct (settle first c) as [[e|] c']; [reflexivity|].
  by rewrite forEach_settle.
Qed.

End PipelineMore.

(** ** The terminator, continued *)

Section SemicolonMore.
Import Reduce.

Lemma length_append (a b : string) :
  String.length (a +:+ b) = String.length a + String.length b.
Proof.
  induction a as [|x a IH]; [reflexivity|].
  rewrite append_cons. simpl. by rewrite IH.
Qed.

Lemma length_rev (s : string) : String.length (Js.rev s) = String.length s.
Proof.
  induction s as [|x s IH]; [reflexivity|].
  rewrite rev_cons, length_append, IH. simpl. lia.
Qed.

Lemma trimLeft_length s :
  String.length (Js.trimLeft s) <= String.length s
  /\ (String.length (Js.trimLeft s) = String.length s -> Js.trimLeft s = s).
Proof.
  destruct (trimLeft_suffix s) as [spaces Hs].
  assert (String.length s
          = String.length spaces + String.length (Js.trimLeft s)) as Hlen
    by (rewrite Hs at 1; apply length_append).
  split; [lia|].
  intros Heq. destruct spaces as [|x spaces]; [by rewrite Hs at 2|].
  simpl in Hlen. lia.
Qed.

Lemma trimRight_length s :
  String.length (Js.trimRight s) <= String.length s
  /\ (String.length (Js.trimRight s) = String.length s -> Js.trimRight s = s).
Proof.
  unfold Js.trimRight. rewrite length_rev.
  destruct (trimLeft_length (Js.rev s)) as [Hle Heq].
  rewrite length_rev in Hle, Heq. split; [exact Hle|].
  intros Hlen. by rewrite (Heq Hlen), rev_involutive.
Qed.

Lemma trim_shorter s :
  Js.trim s <> s -> String.length (Js.trim s) < String.length s.
Proof.
  intros Hne. unfold Js.trim in *.
  destruct (trimLeft_length s) as [Hl Hleq].
  destruct (trimRight_length (Js.trimLeft s)) as [Hr Hreq].
  destruct (decide (String.length (Js.trimRight (Js.trimLeft s))
                    = String.length s)) as [Heq|]; [|lia].
  exfalso. apply Hne.
  rewrite Hreq by lia. apply Hleq. lia.
Qed.

Lemma get_beyond s : forall n, String.length s <= n -> String.get n s = None.
Proof.
  induction s as [|x s IH]; intros n Hn; [reflexivity|].
  destruct n as [|n]; simpl in *; [lia | apply IH; lia].
Qed.

Lemma semicolon_padded content :
  Js.trim content <> content -> semicolon content = content.
Proof.
  intros Hpad. apply trim_shorter in Hpad. unfold semicolon.
  destruct (String.eqb_spec content "") as [->|Hne]; [reflexivity|].
  unfold Js.charAt, Js.length.
  destruct (Z.ltb_spec (Z.of_nat (String.length content) - 1) 0);
    [reflexivity|].
  rewrite get_beyond; [reflexivity | lia].
Qed.

(** X2.  [semicolon] looks for the last character of the trimmed text
    at the last position of the text as given, so a text with white
    space at either end is returned as it is, whatever it ends with. *)
Theorem semicolon_ignores_padded_text content :
  Js.trim content <> content -> semicolon content = content.
Proof. apply semicolon_padded. Qed.

Lemma semicolon_ignores_padded_text_witness :
  semicolon "f() " = "f() " /\ semicolon "  f()" = "  f()".
Proof.
  split; apply semicolon_ignores_padded_text; vm_compute; discriminate.
Defined.

Lemma last_terminated s : Js.last (s +:+ ";") = Some ";"%char.
Proof. unfold Js.last. by rewrite rev_app. Qed.

Lemma semicolon_terminated s : semicolon (s +:+ ";") = s +:+ ";".
Proof.
  destruct (decide (Js.trim (s +:+ ";") = s +:+ ";")) as [Htrim|Hpad].
  - rewrite semicolon_trimmed by exact Htrim.
    unfold closes. by rewrite last_terminated.
  - by apply semicolon_padded.
Qed.

(** X3.  [semicolon] adds at most one semicolon, at the end, and a
    second application changes nothing: a text that it has terminated
    is left alone. *)
Theorem semicolon_idempotent content :
  (semicolon content = content \/ semicolon content = content +:+ ";")
  /\ semicolon (semicolon content) = semicolon content.
Proof.
  destruct (decide (Js.trim content = content)) as [Htrim|Hpad].
  - pose proof (semicolon_trimmed content Htrim) as Hsemi.
    destruct (closes content); rewrite Hsemi.
    + split; [by right | apply semicolon_terminated].
    + split; [by left | exact Hsemi].
  - rewrite (semicolon_padded _ Hpad). split; [by left|].
    by apply semicolon_padded.
Qed.

End SemicolonMore.

(** ** Comments and directives, continued *)

Section DirectiveMore.
Import Critical Directive.

Variable e : env.
Variable fs : gmap string string.
Variable path_resolve : string -> option string -> string.
Variable path_dirname : string -> string.
Variable commentStyles : string -> option style.
Variable package_path : string.

#[local] Abbreviation insert' :=
  (insert e fs path_resolve path_dirname commentStyles).
#[local] Abbreviation scan' :=
  (scan e fs path_resolve path_dirname commentStyles).
#[local] Abbreviation scan_all' :=
  (scan_all e fs path_resolve path_dirname commentStyles).
#[local] Abbreviation directive' :=
  (directive e fs path_resolve path_dirname commentStyles package_path).

Lemma all_app p (a b : string) : Js.all p (a +:+ b) = Js.all p a && Js.all p b.
Proof.
  induction a as [|x a IH]; [reflexivity|].
  rewrite append_cons. simpl. by rewrite IH, andb_assoc.
Qed.

Lemma all_rev p (s : string) : Js.all p (Js.rev s) = Js.all p s.
Proof.
  induction s as [|x s IH]; [reflexivity|].
  rewrite rev_cons, all_app, IH. simpl. by rewrite andb_true_r, andb_comm.
Qed.

Lemma split_aux_whole sep s : forall cur,
  Js.all (fun c => negb (sep c)) s = true ->
  Js.split_aux sep s cur = [Js.rev cur +:+ s].
Proof.
  induction s as [|c s IH]; intros cur Hall; simpl.
  - by rewrite append_empty_r.
  - simpl in Hall. apply andb_true_iff in Hall as [Hc Hs].
    apply negb_true_iff in Hc. rewrite Hc, (IH _ Hs).
    by rewrite rev_cons, append_assoc.
Qed.

Lemma split_whole sep s :
  Js.all (fun c => negb (sep c)) s = true -> Js.split sep s = [s].
Proof. intros Hall. unfold Js.split. by rewrite split_aux_whole. Qed.

Lemma split_aux_all p sep s : forall cur,
  Js.all p s = true -> Js.all p cur = true ->
  Forall (fun line => Js.all p line = true) (Js.split_aux sep s cur).
Proof.
  induction s as [|c s IH]; intros cur Hs Hcur; simpl.
  - repeat constructor. by rewrite all_rev.
  - simpl in Hs. apply andb_true_iff in Hs as [Hc Hs].
    destruct (sep c).
    + constructor; [by rewrite all_rev | by apply IH].
    + apply IH; [done|]. simpl. by rewrite Hc.
Qed.

(** X4.  For an extension that has a comment style, a text of one line
    is wrapped as one line: a line feed, the header, a space, the text,
    the footer and a line feed.  The bar splits lines like a line feed,
    so the text must not hold one. *)
Theorem commentWrap_single_line data extension sty :
  commentStyles extension = Some sty ->
  Js.all (fun c => negb (is_line_terminator c || Ascii.eqb c "|")) data = true ->
  commentWrap commentStyles data extension
  = Js.nl +:+ header sty +:+ " " +:+ data +:+ footer sty +:+ Js.nl.
Proof.
  intros Hsty Hline. unfold commentWrap.
  by rewrite Hsty, (split_whole _ _ Hline).
Qed.

(** *** The expression of the directives *)

Lemma reqparse_at_other c s :
  c <> "/"%char -> reqparse_at (String c s) = None.
Proof.
  intros Hc. unfold reqparse_at, commenttype.
  change (Js.strip false "/*" (String c s))
    with (if Ascii.eqb "/" c then Js.strip false "*" s else None).
  change (Js.strip false "//" (String c s))
    with (if Ascii.eqb "/" c then Js.strip false "/" s else None).
  destruct (Ascii.eqb_spec "/" c) as [<-|_]; [done | reflexivity].
Qed.

Lemma reqparse_from_no_slash s : forall before,
  Js.all (fun c => negb (Ascii.eqb c "/")) s = true ->
  reqparse_from before s = None.
Proof.
  induction s as [|c s IH]; intros before Hall; [reflexivity|].
  simpl in Hall. apply andb_true_iff in Hall as [Hc Hs].
  apply negb_true_iff, Ascii.eqb_neq in Hc.
  simpl. rewrite (reqparse_at_other c s Hc). by apply IH.
Qed.

(** X5.  A line without a slash is never taken for a directive,
    whatever else it holds. *)
Theorem reqparse_needs_slash line :
  Js.all (fun c => negb (Ascii.eqb c "/")) line = true ->
  reqparse_exec line = None.
Proof. apply reqparse_from_no_slash. Qed.

Lemma scan_all_plain rec extension reference lines : forall assemble index w,
  Forall (fun line => reqparse_exec line = None) lines ->
  scan_all' rec extension reference assemble index lines w
  = (Ret (assemble ++ lines), w).
Proof.
  induction lines as [|line rest IH]; intros assemble index w Hplain; simpl.
  - by rewrite app_nil_r.
  - inversion Hplain as [|? ? Hline Hrest]; subst.
    unfold bind, Directive.scan. rewrite Hline. unfold ret.
    rewrite IH by exact Hrest. by rewrite <- app_assoc.
Qed.

(** X6.  A text without a slash goes through the resolver without a
    file being looked at: its lines are joined again with line feeds,
    the result is trimmed, and [seen] and the log stay as they are. *)
Theorem directive_plain_text fuel data extension reference w :
  Js.all (fun c => negb (Ascii.eqb c "/")) data = true ->
  directive' (S fuel) data extension reference w
  = (Ret (Js.trim (Js.join Js.nl (Js.split is_line_terminator data))), w).
Proof.
  intros Hplain. simpl. unfold directive_body, bind.
  rewrite scan_all_plain; [reflexivity|].
  eapply Forall_impl.
  - apply (split_aux_all _ is_line_terminator data "" Hplain eq_refl).
  - intros line Hline. by apply reqparse_from_no_slash.
Qed.

End DirectiveMore.

Lemma commentWrap_single_line_witness :
  Directive.commentWrap Example.star_styles "hello world" "js"
  = Js.nl +:+ "/* hello world */" +:+ Js.nl.
Proof.
  rewrite (commentWrap_single_line Example.star_styles "hello world" "js"
             Example.star); reflexivity.
Defined.

Lemma reqparse_needs_slash_witness :
  Directive.reqparse_exec "var a = [square] @require" = None.
Proof. apply reqparse_needs_slash. reflexivity. Defined.

Lemma directive_plain_text_witness :
  Directive.directive Example.cli ∅ Example.path_resolve Example.path_dirname
    Example.star_styles "/src" 1
    ("  a {" +:+ String Js.CR "" +:+ "}  ") "css" "" Example.start
  = (Critical.Ret (Example.lines ["a {"; "}"]), Example.start).
Proof.
  rewrite directive_plain_text; [|reflexivity].
  vm_compute. reflexivity.
Defined.

Section ReqparseMore.
Import Directive.

Lemma span_until p file q r :
  Js.all p file = true -> p q = false ->
  Js.span p (file +:+ String q r) = (file, String q r).
Proof.
  intros Hall Hq. induction file as [|c file IH].
  - rewrite append_empty_l. simpl. by rewrite Hq.
  - simpl in Hall. apply andb_true_iff in Hall as [Hc Hf].
    rewrite append_cons. simpl. by rewrite Hc, (IH Hf).
Qed.

Lemma reqparse_at_steps s ct r1 r3 r5 st r6 r8 file r9 r10 :
  commenttype s = Some (ct, r1) ->
  Js.strip true "[square]" (Js.trimLeft r1) = Some r3 ->
  Js.strip false "@" (Js.trimLeft r3) = Some r5 ->
  statement r5 = Some (st, r6) ->
  Js.strip false (String Js.DQUOTE "") (Js.trimLeft r6) = Some r8 ->
  Js.span (fun c => negb (Ascii.eqb c Js.DQUOTE)) r8 = (file, r9) ->
  Js.strip false (String Js.DQUOTE "") r9 = Some r10 ->
  reqparse_at s
  = Some (ct, st, if String.eqb file "" then None else Some file,
          snd (Js.span (fun c => negb (is_line_terminator c)) r10)).
Proof.
  intros H1 H3 H5 H6 H8 H9 H10. unfold reqparse_at.
  rewrite H1. cbn [mbind option_bind]. rewrite H3. cbn [mbind option_bind].
  rewrite H5. cbn [mbind option_bind]. rewrite H6. cbn [mbind option_bind].
  rewrite H8. cbn [mbind option_bind]. rewrite H9, H10.
  cbn [mbind option_bind].
  by destruct (Js.span _ r10).
Qed.

Lemma reqparse_at_directive_text opener st file :
  opener = "/*" \/ opener = "//" ->
  st = "require" \/ st = "import" \/ st = "include" ->
  file <> "" ->
  Js.all (fun c => negb (Ascii.eqb c Js.DQUOTE)) file = true ->
  reqparse_at (Example.directive_text opener st file)
  = Some (opener, st, Some file, "").
Proof.
  intros Hopener Hst Hne Hall. apply String.eqb_neq in Hne.
  destruct Hopener as [->| ->]; destruct Hst as [->|[->| ->]];
    (etrans;
     [eapply reqparse_at_steps;
      [reflexivity | reflexivity | reflexivity | reflexivity | reflexivity
      | apply span_until; [exact Hall | reflexivity] | reflexivity]
     | rewrite Hne; reflexivity]).
Qed.

Lemma reqparse_from_skip pre s : forall before,
  Js.all (fun c => negb (Ascii.eqb c "/")) pre = true ->
  reqparse_from before (pre +:+ s)
  = reqparse_from (Js.rev_append pre before) s.
Proof.
  induction pre as [|c pre IH]; intros before Hall; [reflexivity|].
  simpl in Hall. apply andb_true_iff in Hall as [Hc Hpre].
  apply negb_true_iff, Ascii.eqb_neq in Hc.
  rewrite append_cons. simpl reqparse_from.
  rewrite (reqparse_at_other c _ Hc). by apply IH.
Qed.

Lemma reqparse_from_hit before s ct st file suffix :
  reqparse_at s = Some (ct, st, file, suffix) ->
  reqparse_from before s
  = Some (ReqMatch (Js.rev before)
            (substring 0 (String.length s - String.length suffix) s)
            ct st file suffix).
Proof.
  intros Hat. destruct s as [|c s]; [discriminate|].
  cbn [reqparse_from]. by rewrite Hat.
Qed.

Lemma substring_whole s : substring 0 (String.length s) s = s.
Proof. induction s as [|c s IH]; simpl; [reflexivity | by rewrite IH]. Qed.

(** X7.  A directive written in the usual form is recognised wherever
    it stands on a line: with either comment opener and any of the three
    statements, the match starts at the opener, the text before it is
    kept as prefix, and the file is what the quotes hold. *)
Theorem reqparse_recognises_directive pre opener st file :
  Js.all (fun c => negb (Ascii.eqb c "/")) pre = true ->
  opener = "/*" \/ opener = "//" ->
  st = "require" \/ st = "import" \/ st = "include" ->
  file <> "" ->
  Js.all (fun c => negb (Ascii.eqb c Js.DQUOTE)) file = true ->
  reqparse_exec (pre +:+ Example.directive_text opener st file)
  = Some (ReqMatch pre (Example.directive_text opener st file)
            opener st (Some file) "").
Proof.
  intros Hpre Hopener Hst Hne Hall. unfold reqparse_exec.
  rewrite (reqparse_from_skip _ _ _ Hpre).
  rewrite (reqparse_from_hit _ _ _ _ _ _
             (reqparse_at_directive_text _ _ _ Hopener Hst Hne Hall)).
  change (Js.rev (Js.rev_append pre "")) with (Js.rev (Js.rev pre)).
  by rewrite rev_involutive, Nat.sub_0_r, substring_whole.
Qed.

Lemma reqparse_recognises_directive_witness :
  reqparse_exec ("var a = 1; " +:+ Example.directive_text "/*" "import" "lib/b.js")
  = Some (ReqMatch "var a = 1; "
            (Example.directive_text "/*" "import" "lib/b.js")
            "/*" "import" (Some "lib/b.js") "").
Proof.
  apply reqparse_recognises_directive.
  - reflexivity.
  - by left.
  - right. by left.
  - discriminate.
  - reflexivity.
Defined.

End ReqparseMore.

Section SeenFacts.
Import Critical Directive.

Variable e : env.
Variable fs : gmap string string.
Variable path_resolve : string -> option string -> string.
Variable path_dirname : string -> string.
Variable commentStyles : string -> option style.
Variable package_path : string.

#[local] Abbreviation grows' := (grows fs).
#[local] Abbreviation orderly' := (orderly fs).
#[local] Abbreviation insert'' :=
  (insert e fs path_resolve path_dirname commentStyles).
#[local] Abbreviation scan'' :=
  (scan e fs path_resolve path_dirname commentStyles).
#[local] Abbreviation scan_all'' :=
  (scan_all e fs path_resolve path_dirname commentStyles).
#[local] Abbreviation directive'' :=
  (directive e fs path_resolve path_dirname commentStyles package_path).

Lemma grows_refl w : grows' w w.
Proof. split; [|split; [|split]]; auto. Qed.

Lemma grows_trans w1 w2 w3 : grows' w1 w2 -> grows' w2 w3 -> grows' w1 w3.
Proof.
  intros (Hs1 & Hc1 & Hn1 & He1) (Hs2 & Hc2 & Hn2 & He2).
  split; [|split; [|split]]; [by etrans | by etrans | auto |].
  intros x Hx. destruct (He2 x Hx) as [Hx2|]; auto.
Qed.

Lemma grows_critical message w : grows' w (snd (critical e message w)).
Proof.
  unfold critical.
  destruct (cli e), (handled e); simpl;
    (split; [|split; [|split]]); simpl; auto; by apply prefix_app_r.
Qed.

Lemma grows_critical_false message w :
  grows' w (snd ((do _ <- critical e message; ret "false") w)).
Proof.
  pose proof (grows_critical message w) as Hgrows. unfold bind, ret.
  by destruct (critical e message w) as [[[]| |] w'].
Qed.

Lemma grows_push w location :
  is_Some (fs !! location) -> location ∉ seen w ->
  grows' w (World (seen w ++ [location]) (criticals w)).
Proof.
  intros Hex Hnew. split; [|split; [|split]]; simpl.
  - by apply prefix_app_r.
  - done.
  - intros Hnodup. apply NoDup_app. repeat split; [done| |apply NoDup_singleton].
    intros x Hx Hx'. apply list_elem_of_singleton in Hx' as ->. done.
  - intros x Hx. apply elem_of_app in Hx as [Hx|Hx]; [by left|].
    apply list_elem_of_singleton in Hx as ->. by right.
Qed.

Lemma insert_grows rec extension reference m w :
  orderly' rec -> grows' w (snd (insert'' rec extension reference m w)).
Proof.
  intros Hrec. rewrite insert_cases.
  set (location := path_resolve reference (m_file m)).
  destruct (existsSync fs location) eqn:Hex; simpl negb; cbv iota;
    [|apply grows_critical_false].
  apply bool_decide_eq_true in Hex.
  destruct (bool_decide (location ∈ seen w)) eqn:Hseen;
    [apply grows_critical_false|].
  apply bool_decide_eq_false in Hseen.
  pose proof Hex as [content Hcontent]. rewrite Hcontent.
  eapply grows_trans; [by apply grows_push | apply Hrec].
Qed.

Lemma scan_grows rec extension reference assemble index line w :
  orderly' rec ->
  grows' w (snd (scan'' rec extension reference assemble index line w)).
Proof.
  intros Hrec. unfold Directive.scan.
  destruct (reqparse_exec line) as [m|]; [|apply grows_refl].
  pose proof (insert_grows rec extension reference m w Hrec) as Hgrows.
  unfold bind, ret.
  by destruct (insert'' rec extension reference m w) as [[inserted| |] w'].
Qed.

Lemma scan_all_grows rec extension reference lines :
  orderly' rec ->
  forall assemble index w,
    grows' w
      (snd (scan_all'' rec extension reference assemble index lines w)).
Proof.
  intros Hrec. induction lines as [|line rest IH]; intros assemble index w.
  - apply grows_refl.
  - simpl.
    pose proof (scan_grows rec extension reference assemble index line w Hrec)
      as Hstep.
    unfold bind.
    destruct (scan'' rec extension reference assemble index line w)
      as [[assemble'| |] w']; simpl in *; [|done..].
    eapply grows_trans; [exact Hstep | apply IH].
Qed.

Lemma directive_orderly fuel : orderly' (directive'' fuel).
Proof.
  induction fuel as [|fuel IH]; intros data extension reference w.
  - apply grows_refl.
  - simpl. unfold directive_body.
    set (reference' := if (reference =? "")%string then package_path
                       else reference).
    pose proof (scan_all_grows (directive'' fuel) extension reference'
                  (Js.split is_line_terminator data) IH [] 0 w) as Hgrows.
    unfold bind, ret.
    by destruct (scan_all'' (directive'' fuel) extension reference' [] 0
                   (Js.split is_line_terminator data) w)
      as [[assemble| |] w'].
Qed.

(** X8.  Whatever the resolver is given and however it ends, [seen]
    and the log of critical messages are only added to at their end,
    every path added to [seen] is an existing file, and a [seen]
    without repetition stays without repetition. *)
Theorem directive_seen_grows fuel data extension reference w :
  let w' := snd (directive e fs path_resolve path_dirname commentStyles
                   package_path fuel data extension reference w) in
  seen w `prefix_of` seen w'
  /\ criticals w `prefix_of` criticals w'
  /\ (NoDup (seen w) -> NoDup (seen w'))
  /\ (forall x, x ∈ seen w' -> x ∈ seen w \/ is_Some (fs !! x)).
Proof. apply directive_orderly. Qed.

Lemma insert_marks rec extension reference m w :
  orderly' rec ->
  existsSync fs (path_resolve reference (m_file m)) = true ->
  path_resolve reference (m_file m)
  ∈ seen (snd (insert'' rec extension reference m w)).
Proof.
  intros Hrec Hex. rewrite insert_cases, Hex. simpl negb. cbv iota.
  set (location := path_resolve reference (m_file m)) in *.
  destruct (bool_decide (location ∈ seen w)) eqn:Hseen.
  - apply bool_decide_eq_true in Hseen.
    destruct (grows_critical_false (recursion_detected m) w) as [[k ->] _].
    apply elem_of_app. by left.
  - apply bool_decide_eq_true in Hex as [content Hcontent].
    rewrite Hcontent.
    destruct (Hrec (commentWrap commentStyles
                      ("[square] directive: " +:+ location) extension
                    +:+ Js.trim content)
                   extension (path_dirname location)
                   (World (seen w ++ [location]) (criticals w)))
      as [[k ->] _].
    simpl. rewrite elem_of_app. left. rewrite elem_of_app. right.
    apply list_elem_of_here.
Qed.

(** X9.  A file is included at most once in a resolution.  Once
    [insert] has handled a directive for an existing file, every later
    directive that resolves to the same path, in the same text or in
    another included one, is reported as recursive and puts [false]
    in place of the file. *)
Theorem insert_includes_once fuel extension reference m w :
  existsSync fs (path_resolve reference (m_file m)) = true ->
  let w' := snd (insert'' (directive'' fuel) extension reference m w) in
  forall rec extension' reference' m' w'',
    seen w' ⊆ seen w'' ->
    path_resolve reference' (m_file m') = path_resolve reference (m_file m) ->
    insert'' rec extension' reference' m' w''
    = (do _ <- critical e (recursion_detected m'); ret "false") w''.
Proof.
  intros Hex w' rec extension' reference' m' w'' Hsub Hsame.
  pose proof (insert_marks (directive'' fuel) extension reference m w
                (directive_orderly fuel) Hex) as Hmarked.
  rewrite insert_cases, Hsame, Hex. simpl negb. cbv iota.
  rewrite bool_decide_eq_true_2; [reflexivity|].
  apply Hsub, Hmarked.
Qed.

End SeenFacts.

Lemma directive_seen_grows_witness :
  NoDup (Critical.seen (snd (Example.resolve_cycle Example.api)))
  /\ forall x, x ∈ Critical.seen (snd (Example.resolve_cycle Example.api)) ->
               is_Some (Example.cycle !! x).
Proof.
  destruct (directive_seen_grows Example.api Example.cycle
              Example.path_resolve Example.path_dirname Example.star_styles
              "/src" (S (size Example.cycle)) Example.a_js "js" "/src"
              Example.start) as (_ & _ & Hnodup & Hexist).
  split.
  - apply Hnodup. constructor.
  - intros x Hx. destruct (Hexist x Hx) as [Hin|]; [|done].
    by apply elem_of_nil in Hin.
Defined.

Lemma insert_includes_once_witness :
  Directive.insert Example.api Example.parts Example.path_resolve
    Example.path_dirname Example.star_styles
    (fun _ _ _ => Critical.out_of_fuel) "js" "/src"
    (Directive.ReqMatch "" (Example.require "part.js") "//" "require"
       (Some "part.js") "")
    (Critical.World ["/src/part.js"] [])
  = (Critical.Ret "false",
     Critical.World ["/src/part.js"]
       ["recursive [square] import statement detected "
        +:+ Example.require "part.js"]).
Proof.
  rewrite (insert_includes_once Example.api Example.parts
             Example.path_resolve Example.path_dirname Example.star_styles
             "/src" 1 "js" "/src"
             (Directive.ReqMatch "" (Example.require "part.js") "//" "require"
                (Some "part.js") "")
             Example.start).
  - reflexivity.
  - reflexivity.
  - vm_compute. set_solver.
  - reflexivity.
Defined.

Section PrevMore.
Import Directive.

Lemma prev_none index lines :
  index <= List.length lines ->
  prev index lines = None ->
  forall j raw, j < index -> lines !! j = Some raw ->
    Js.trim raw = "" \/ is_comment (Js.trim raw) = true.
Proof.
  induction index as [|i IH]; intros Hlen Hprev j raw Hj Hraw; [lia|].
  simpl in Hprev.
  destruct (lines !! i) as [l|] eqn:Hl.
  2: { apply lookup_ge_None in Hl. lia. }
  destruct (String.eqb_spec (Js.trim l) "") as [Hblank|Hblank];
    simpl in Hprev.
  - destruct (decide (j = i)) as [->|]; [left; congruence|].
    apply (IH ltac:(lia) Hprev j raw); [lia | done].
  - destruct (is_comment (Js.trim l)) eqn:Hcomment; simpl in Hprev;
      [|discriminate].
    destruct (decide (j = i)) as [->|]; [right; congruence|].
    apply (IH ltac:(lia) Hprev j raw); [lia | done].
Qed.

(** X10.  [prev] looks back from a line over what has been assembled:
    it returns the nearest earlier entry that is neither blank nor a
    comment, without its surrounding white space and with its position,
    and it returns nothing exactly when every earlier entry is blank or
    a comment. *)
Theorem prev_finds_nearest_content index lines :
  index <= List.length lines ->
  match prev index lines with
  | Some (last_line, last_index) =>
      last_index < index
      /\ (exists raw, lines !! last_index = Some raw
                      /\ last_line = Js.trim raw)
      /\ last_line <> ""
      /\ is_comment last_line = false
      /\ (forall j raw, last_index < j < index -> lines !! j = Some raw ->
            Js.trim raw = "" \/ is_comment (Js.trim raw) = true)
  | None =>
      forall j raw, j < index -> lines !! j = Some raw ->
        Js.trim raw = "" \/ is_comment (Js.trim raw) = true
  end.
Proof.
  intros Hlen. destruct (prev index lines) as [[last_line last_index]|] eqn:Hp.
  - by apply prev_nearest.
  - by apply prev_none.
Qed.

Lemma prev_finds_nearest_content_witness :
  prev 4 ["a()"; "  b()  "; "// note"; "   "] = Some ("b()", 1)
  /\ "b()" <> ""
  /\ is_comment "b()" = false.
Proof.
  pose proof (prev_finds_nearest_content 4
                ["a()"; "  b()  "; "// note"; "   "] ltac:(simpl; lia))
    as Hprev.
  change (prev 4 ["a()"; "  b()  "; "// note"; "   "])
    with (Some ("b()", 1)) in Hprev.
  destruct Hprev as (_ & _ & Hne & Hcomment & _).
  repeat split; assumption.
Defined.

End PrevMore.

(** ** The reducer, continued *)

Section ReduceMore.
Import Critical Directive Reduce.

Variable e : env.
Variable fs : gmap string string.
Variable path_resolve : string -> option string -> string.
Variable path_dirname : string -> string.
Variable path_extname : string -> string.
Variable commentStyles : string -> option style.
Variable package_path : string.

#[local] Abbreviation reduce_step' :=
  (reduce_step e fs path_resolve path_dirname commentStyles package_path).
#[local] Abbreviation reduce_tree' :=
  (reduce_tree e fs path_resolve path_dirname commentStyles package_path).
#[local] Abbreviation reduce' :=
  (reduce e fs path_resolve path_dirname path_extname commentStyles
          package_path).

Lemma tidy_empty extensions : documents_tidy extensions ∅.
Proof. intros k v. by rewrite lookup_empty. Qed.

Lemma tidy_placeholder extensions memo output :
  output ∈ extensions ->
  documents_tidy extensions memo ->
  documents_tidy extensions
    match memo !! output with
    | Some (String _ _) => memo
    | _ => <[output := ""]> memo
    end.
Proof.
  intros Hin Htidy.
  assert (documents_tidy extensions (<[output := ""]> memo)) as Hempty.
  { intros k v. destruct (decide (output = k)) as [<-|Hne].
    - rewrite lookup_insert_eq. by intros [= <-].
    - rewrite lookup_insert_ne by done. apply Htidy. }
  by destruct (memo !! output) as [[|c s]|].
Qed.

Lemma tidy_joined extensions memo output content :
  output ∈ extensions ->
  documents_tidy extensions memo ->
  documents_tidy extensions
    (alter (fun m => Js.trim (m +:+ Js.nl +:+ content)) output
       (if String.eqb output "js" then alter semicolon output memo else memo)).
Proof.
  intros Hin Htidy k v. destruct (decide (output = k)) as [<-|Hne].
  - rewrite lookup_alter_eq.
    destruct (_ !! output) as [m|]; simpl; [|discriminate].
    intros [= <-]. split; [done | apply trim_idempotent].
  - rewrite lookup_alter_ne by done.
    destruct (String.eqb output "js").
    + rewrite lookup_alter_ne by done. apply Htidy.
    + apply Htidy.
Qed.

Lemma reduce_step_tidy fuel platform extensions totals memo count b w r w' :
  documents_tidy extensions memo ->
  reduce_step' fuel platform extensions totals (memo, count) b w
  = (Ret r, w') ->
  documents_tidy extensions (fst (snd r)).
Proof.
  intros Htidy. unfold reduce_step.
  destruct (bool_decide_reflect (output (bundle_meta b) ∈ extensions))
    as [Hin|Hout].
  - change (negb true) with false. cbv iota. unfold bind, ret.
    destruct (preprocess e fs path_resolve path_dirname commentStyles
                package_path fuel b
                (details_of totals count (extension (bundle_meta b)) platform)
                w) as [[[err|content]| |] w1];
      cbv beta iota; [| |discriminate..]; intros [= <- <-]; simpl.
    + by apply tidy_placeholder.
    + by apply tidy_joined, tidy_placeholder.
  - change (negb false) with true. cbv iota. unfold ret.
    by intros [= <- <-].
Qed.

Lemma reduce_tree_tidy fuel platform extensions totals tree :
  forall memo count w r w',
    documents_tidy extensions memo ->
    reduce_tree' fuel platform extensions totals (memo, count) tree w
    = (Ret r, w') ->
    documents_tidy extensions (snd r).
Proof.
  induction tree as [|b rest IH]; intros memo count w r w' Htidy;
    cbn [reduce_tree].
  - unfold ret. by intros [= <- <-].
  - unfold bind.
    destruct (reduce_step' fuel platform extensions totals (memo, count) b w)
      as [[[err [memo1 count1]]| |] w1] eqn:Hstep;
      cbv beta iota; [|discriminate..].
    pose proof (reduce_step_tidy _ _ _ _ _ _ _ _ _ _ Htidy Hstep) as Htidy1.
    simpl in Htidy1.
    destruct err as [err|].
    + unfold ret. by intros [= <- <-].
    + by apply IH.
Qed.

(** X11.  What [reduce] hands to its callback, with or without an
    error, holds documents for requested extensions only, and every
    document is free of white space at both ends. *)
Theorem reduce_documents_tidy fuel files tree platform extensions w err memo w' :
  reduce' fuel files tree platform extensions w = (Ret (err, memo), w') ->
  forall k v, memo !! k = Some v -> k ∈ extensions /\ Js.trim v = v.
Proof.
  unfold reduce. intros Hreduce.
  apply (reduce_tree_tidy _ _ _ _ _ _ _ _ _ _ (tidy_empty extensions)
           Hreduce).
Qed.

Lemma reduce_step_skips fuel platform extensions totals memo count b w :
  output (bundle_meta b) ∉ extensions ->
  reduce_step' fuel platform extensions totals (memo, count) b w
  = (Ret (None, (memo, alter (fun c => (c - 1)%Z) (extension (bundle_meta b))
                              count)), w).
Proof.
  intros Hout. unfold reduce_step.
  rewrite bool_decide_eq_false_2 by exact Hout. reflexivity.
Qed.

Lemma reduce_tree_skips fuel platform extensions totals tree :
  Forall (fun b => output (bundle_meta b) ∉ extensions) tree ->
  forall memo count w,
    reduce_tree' fuel platform extensions totals (memo, count) tree w
    = (Ret (None, memo), w).
Proof.
  induction 1 as [|b rest Hb _ IH]; intros memo count w; cbn [reduce_tree];
    [reflexivity|].
  unfold bind. rewrite reduce_step_skips by exact Hb. apply IH.
Qed.

(** X12.  Bundles whose output extension is not requested are passed
    over: when no bundle of the tree produces a requested extension,
    [reduce] reads nothing, reports nothing and hands an empty set of
    documents to its callback. *)
Theorem reduce_passes_over_other_outputs
    fuel files tree platform extensions w :
  Forall (fun b => output (bundle_meta b) ∉ extensions) tree ->
  reduce e fs path_resolve path_dirname path_extname commentStyles
         package_path fuel files tree platform extensions w
  = (Ret (None, ∅), w).
Proof. intros Hother. unfold reduce. by apply reduce_tree_skips. Qed.

End ReduceMore.

Lemma reduce_documents_tidy_witness :
  "js" ∈ ["js"]
  /\ Js.trim ("f();" +:+ Js.nl +:+ "g()") = "f();" +:+ Js.nl +:+ "g()".
Proof.
  apply (reduce_documents_tidy Example.api ∅ Example.path_resolve
           Example.path_dirname Example.path_extname Example.no_styles "/src"
           1 ["/src/a.js"; "/src/b.js"]
           [Example.plain "/src/a.js" "js" "f()";
            Example.plain "/src/b.js" "js" "g()"]
           "web" ["js"] Example.start None
           {["js" := "f();" +:+ Js.nl +:+ "g()"]} Example.start).
  - vm_compute. reflexivity.
  - vm_compute. reflexivity.
Defined.

Lemma reduce_passes_over_other_outputs_witness :
  Reduce.reduce Example.cli ∅ Example.path_resolve Example.path_dirname
    Example.path_extname Example.star_styles "/src" 0
    ["/src/a.js"] [Example.plain "/src/a.js" "js" "f()"] "web" ["css"]
    Example.start
  = (Critical.Ret (None, ∅), Example.start).
Proof.
  apply reduce_passes_over_other_outputs.
  repeat constructor. simpl. intros Hin.
  apply list_elem_of_singleton in Hin. discriminate.
Defined.

(** ** The manifest, continued *)

Section ManifestMore.
Import Critical Manifest.

Variable e : env.
Variable fs : gmap string string.
Variable helper_base : string -> string -> string.
Variable helper_weight : Z -> Z -> Z.
Variable struct_path : string.

#[local] Abbreviation parse' :=
  (Manifest.parse e fs helper_base helper_weight struct_path).
#[local] Abbreviation forEach' :=
  (Manifest.forEach e fs helper_base helper_weight struct_path).
#[local] Abbreviation each' :=
  (Manifest.each e fs helper_base helper_weight struct_path).
#[local] Abbreviation bundle_at' :=
  (bundle_at helper_base helper_weight struct_path).

Lemma forEach_files entries : forall p w p' w',
  forEach' p entries w = (Ret p', w') ->
  map location (tree p) = files p ->
  map location (tree p') = files p'.
Proof.
  induction entries as [|entry rest IH]; intros p w p' w';
    cbn [Manifest.forEach].
  - unfold ret. by intros [= <- <-].
  - unfold bind at 1. rewrite each_cases.
    destruct (bool_decide (is_Some (fs !! helper_base entry.1 struct_path))).
    + intros Hrest Hfiles. apply (IH _ _ _ _ Hrest). simpl.
      by rewrite map_app, Hfiles.
    + unfold bind, critical, ret.
      destruct (cli e); [discriminate|].
      destruct (handled e); [|discriminate].
      by intros [= <- <-].
Qed.

(** X13.  The tree and the list of files that [parse] builds describe
    the same bundles: the locations of the bundles of the tree are the
    files of the list, each as often, in the order of their weights
    instead of the order of the manifest. *)
Theorem parse_tree_lists_files declaration w tree' files' w' :
  parse' declaration w = (Ret (tree', files'), w') ->
  map location tree' ≡ₚ files'
  /\ List.length tree' = List.length files'.
Proof.
  unfold Manifest.parse, bind. intros Hparse.
  destruct (convert declaration w) as [[v| |] w1]; [|discriminate..].
  destruct (keys v w1) as [[ks| |] w2]; [|discriminate..].
  destruct (forEach' _ _ w2) as [[p| |] w3] eqn:Hloop; [|discriminate..].
  unfold ret in Hparse. injection Hparse as <- <- <-.
  pose proof (forEach_files _ _ _ _ _ Hloop eq_refl) as Hfiles.
  assert (map location (sort by_weight (tree p)) ≡ₚ files p) as Hperm
    by (rewrite <- Hfiles; apply Permutation_map, sort_perm).
  split; [exact Hperm|].
  apply Permutation_length in Hperm. by rewrite length_map in Hperm.
Qed.

Lemma forEach_existing before : forall p rest w,
  Forall (fun en => is_Some (fs !! helper_base (fst en) struct_path)) before ->
  forEach' p (before ++ rest) w
  = forEach' (Progress (tree p ++ imap (bundle_at' (size p)) before)
                       (files p ++ map (fun en => helper_base (fst en)
                                                    struct_path) before)
                       (size p - Z.of_nat (List.length before)))
             rest w.
Proof.
  induction before as [|entry before IH]; intros p rest w Hex.
  - simpl. rewrite !app_nil_r, Z.sub_0_r. by destruct p.
  - inversion Hex as [|? ? Hentry Hbefore]; subst.
    cbn [app Manifest.forEach]. unfold bind at 1. rewrite each_cases.
    rewrite bool_decide_eq_true_2 by exact Hentry.
    rewrite (IH _ _ _ Hbefore). cbn [tree files size].
    f_equal. f_equal.
    + rewrite <- app_assoc. f_equal. cbn [imap app]. f_equal.
      apply imap_ext. intros i en _. unfold bundle_at. simpl.
      do 2 f_equal. lia.
    + by rewrite <- app_assoc.
    + cbn [List.length]. lia.
Qed.

(** X14.  When the file of a bundle is missing, [parse] reports it
    through [critical] and leaves the loop over the bundles.  The
    command line tool exits and the library without an error listener
    throws; with a listener [parse] goes on to sort what it has, so that
    its tree and its list of files hold the bundles declared before the
    missing one and none of those declared after it. *)
Theorem parse_missing_file before missing_key missing after w :
  Forall (fun en => is_Some (fs !! helper_base (fst en) struct_path)) before ->
  fs !! helper_base missing_key struct_path = None ->
  let entries := before ++ (missing_key, missing) :: after in
  let message := "Duuuude wtf, you specified bundle "
                 +:+ helper_base missing_key struct_path
                 +:+ ", but that file doesnt exist" in
  let w' := World (seen w) (criticals w ++ [message]) in
  parse' (BundleObject entries) w
  = if cli e then (Fail (Exit 1), w')
    else if handled e then
      (Ret (sort by_weight
              (imap (bundle_at' (Z.of_nat (List.length entries))) before),
            map (fun en => helper_base (fst en) struct_path) before), w')
    else (Fail (Thrown message), w').
Proof.
  intros Hbefore Hmissing entries message w'.
  unfold Manifest.parse, bind at 1, convert, ret.
  unfold bind at 1, keys, ret. unfold bind at 1.
  subst entries. rewrite (forEach_existing _ _ _ _ Hbefore).
  cbn [Manifest.forEach tree files size app]. unfold bind at 1.
  rewrite each_cases. cbn [fst].
  rewrite bool_decide_eq_false_2 by (rewrite Hmissing; by intros [? ?]).
  unfold bind, critical, ret. cbn [seen criticals].
  fold message. rewrite length_fmap.
  by destruct (cli e), (handled e).
Qed.

End ManifestMore.

Lemma parse_tree_lists_files_witness :
  map Manifest.location
    [Manifest.Bundle "a.js" "/src/a.js" 3; Manifest.Bundle "b.js" "/src/b.js" 2;
     Manifest.Bundle "c.js" "/src/c.js" 1]
  ≡ₚ ["/src/a.js"; "/src/b.js"; "/src/c.js"].
Proof.
  apply (parse_tree_lists_files Example.api Example.three_files
           Example.helper_base Example.helper_weight "/src"
           (Manifest.BundleObject Example.three) Example.start _ _
           Example.start).
  vm_compute. reflexivity.
Defined.

Lemma parse_missing_file_witness :
  Manifest.parse Example.api Example.three_files Example.helper_base
    Example.helper_weight "/src"
    (Manifest.BundleObject
       [("a.js", Manifest.Declared None "first");
        ("x.js", Manifest.Declared None "missing");
        ("c.js", Manifest.Declared None "third")])
    Example.start
  = (Critical.Ret ([Manifest.Bundle "a.js" "/src/a.js" 3], ["/src/a.js"]),
     Critical.World []
       ["Duuuude wtf, you specified bundle /src/x.js, but that file doesnt exist"]).
Proof.
  assert (Forall (fun en => is_Some (Example.three_files
                                     !! Example.helper_base (fst en) "/src"))
                 [("a.js", Manifest.Declared None "first")]) as Hbefore
    by (repeat constructor; vm_compute; eauto).
  exact (parse_missing_file Example.api Example.three_files
           Example.helper_base Example.helper_weight "/src"
           [("a.js", Manifest.Declared None "first")] "x.js"
           (Manifest.Declared None "missing")
           [("c.js", Manifest.Declared None "third")] Example.start
           Hbefore eq_refl).
Defined.

(** ** Templates, continued *)

Section TemplateMore.
Import Value Template.

(** The object that [this.tag()] returns. *)
Variable tag : value.

Lemma emit_empty k : emit "" k = k.
Proof. by destruct k as [[out|m]|]. Qed.

Lemma emit_emit a b k : emit a (emit b k) = emit (a +:+ b) k.
Proof. destruct k as [[out|m]|]; simpl; [|done..]. by rewrite append_assoc. Qed.

Lemma replace_all_text data pre s :
  Js.all (fun c => negb (Ascii.eqb c "{")) pre = true ->
  replace_all data None (pre +:+ s) = emit pre (replace_all data None s).
Proof.
  intros Hpre. induction pre as [|c pre IH].
  - by rewrite append_empty_l, emit_empty.
  - simpl in Hpre. apply andb_true_iff in Hpre as [Hc Hpre].
    apply negb_true_iff in Hc.
    rewrite append_cons. cbn [replace_all]. rewrite Hc, (IH Hpre).
    by rewrite emit_emit.
Qed.

(** X15.  A text without an opening brace holds no placeholder and is
    returned as it is, whatever the data are. *)
Theorem template_without_placeholder str data :
  Js.all (fun c => negb (Ascii.eqb c "{")) str = true ->
  template tag str data = Some (Normal str).
Proof.
  intros Hplain. unfold template.
  rewrite <- (append_empty_r str) at 1.
  rewrite (replace_all_text _ _ _ Hplain). cbn [replace_all emit].
  by rewrite append_empty_r.
Qed.

Lemma replace_all_key data post key : forall read,
  Js.all (fun c => negb (Ascii.eqb c "{") && negb (Ascii.eqb c "}")) key
  = true ->
  read <> "" \/ key <> "" ->
  replace_all data (Some read) (key +:+ "}" +:+ post)
  = match replace data (Js.rev read +:+ key) with
    | Some (Normal text) => emit text (replace_all data None post)
    | other => other
    end.
Proof.
  induction key as [|c key IH]; intros read Hkey Hne.
  - destruct Hne as [Hread|]; [|done].
    apply String.eqb_neq in Hread.
    rewrite append_empty_l, append_empty_r, append_cons.
    cbn [replace_all]. change (Ascii.eqb "}" "{") with false.
    change (Ascii.eqb "}" "}") with true. cbv iota. by rewrite Hread.
  - simpl in Hkey. apply andb_true_iff in Hkey as [Hc Hkey].
    apply andb_true_iff in Hc as [Hopen Hclose].
    apply negb_true_iff in Hopen, Hclose.
    rewrite append_cons. cbn [replace_all]. rewrite Hopen, Hclose.
    cbn [andb]. rewrite (IH (String c read) Hkey) by (left; discriminate).
    by rewrite rev_cons, append_assoc.
Qed.

(** X16.  A placeholder is replaced where it stands: the text before
    the first opening brace is kept, a key without braces between a
    pair of braces gives way to what [replace] makes of it in the data,
    or in the tags when no data are given, and the rest of the text is
    treated in the same way on its own.  An error of the lookup is the
    error of the whole template. *)
Theorem template_replaces_in_place pre key post data :
  Js.all (fun c => negb (Ascii.eqb c "{")) pre = true ->
  key <> "" ->
  Js.all (fun c => negb (Ascii.eqb c "{") && negb (Ascii.eqb c "}")) key
  = true ->
  template tag (pre +:+ "{" +:+ key +:+ "}" +:+ post) data
  = match replace (if truthy data then data else tag) key with
    | Some (Normal text) =>
        match template tag post data with
        | Some (Normal out) => Some (Normal (pre +:+ text +:+ out))
        | other => other
        end
    | other => other
    end.
Proof.
  intros Hpre Hne Hkey. unfold template, given.
  rewrite (replace_all_text _ _ _ Hpre), append_cons, append_empty_l.
  cbn [replace_all]. change (Ascii.eqb "{" "{") with true. cbv iota.
  rewrite (replace_all_key _ _ _ _ Hkey) by (by right).
  change (Js.rev "") with "". rewrite append_empty_l.
  destruct (replace _ key) as [[text|m]|]; [|reflexivity..].
  rewrite emit_emit.
  destruct (replace_all _ None post) as [[out|m]|]; simpl; [|done..].
  by rewrite append_assoc.
Qed.

Lemma has_dot_all s :
  Js.all (fun c => negb (Ascii.eqb c ".")) s = true -> has_dot s = false.
Proof.
  unfold has_dot. induction s as [|c s IH]; [reflexivity|].
  cbn [Js.all list_ascii_of_string existsb].
  intros Hall. apply andb_true_iff in Hall as [Hc Hs].
  apply negb_true_iff in Hc. rewrite Ascii.eqb_sym in Hc.
  by rewrite Hc, (IH Hs).
Qed.

Lemma get_truthy data k m :
  truthy data = true -> get data k <> Some (TypeError m).
Proof.
  destruct data as [| |b|n|s|items|props|class props]; try discriminate;
    intros _; cbn [get]; try discriminate.
  - destruct (String.eqb k "length"); [discriminate|].
    by destruct (canonical_index k).
  - destruct (String.eqb k "length"); [discriminate|].
    by destruct (canonical_index k).
  - destruct (own_prop k props); [discriminate|].
    by destruct (bool_decide _).
  - by destruct (own_prop k props).
Qed.

Lemma replace_flat data key m :
  truthy data = true ->
  Js.all (fun c => negb (Ascii.eqb c ".")) key = true ->
  replace data key = Some (TypeError m) ->
  exists v,
    get data key = Some (Normal v)
    /\ truthy v = true
    /\ to_string v = Some (TypeError m).
Proof.
  intros Hdata Hkey. unfold replace, getObjectByKey.
  rewrite (has_dot_all _ Hkey). simpl negb. rewrite orb_true_r.
  pose proof (get_truthy data key m Hdata) as Hget.
  destruct (get data key) as [[v|m']|]; [|congruence|discriminate].
  destruct (truthy v) eqn:Hv; [eauto|discriminate].
Qed.

Lemma replace_all_flat data str m : forall read,
  truthy data = true ->
  Js.all (fun c => negb (Ascii.eqb c ".")) str = true ->
  Js.all (fun c => negb (Ascii.eqb c ".")) (default "" read) = true ->
  replace_all data read str = Some (TypeError m) ->
  exists key v,
    get data key = Some (Normal v)
    /\ truthy v = true
    /\ to_string v = Some (TypeError m).
Proof.
  intros read Hdata. revert read.
  induction str as [|c str IH]; intros read Hstr Hread.
  - destruct read; discriminate.
  - simpl in Hstr. apply andb_true_iff in Hstr as [Hc Hstr].
    cbn [replace_all]. destruct read as [read|].
    + destruct (Ascii.eqb c "{").
      * specialize (IH (Some "") Hstr eq_refl).
        destruct (replace_all data (Some "") str) as [[out|m']|];
          [discriminate| |discriminate].
        intros [= ->]. by apply IH.
      * destruct (Ascii.eqb c "}" && negb (String.eqb read "")).
        -- pose proof (replace_flat data (Js.rev read) m Hdata) as Hflat.
           destruct (replace data (Js.rev read)) as [[text|m']|];
             [| |discriminate].
           ++ specialize (IH None Hstr eq_refl).
              destruct (replace_all data None str) as [[out|m']|];
                [discriminate| |discriminate].
              intros [= ->]. by apply IH.
           ++ intros [= ->]. eexists. apply Hflat; [|done].
              by rewrite all_rev.
        -- apply IH; [done|]. simpl. simpl in Hread. by rewrite Hc, Hread.
    + destruct (Ascii.eqb c "{").
      * apply IH; done.
      * specialize (IH None Hstr eq_refl).
        destruct (replace_all data None str) as [[out|m']|];
          [discriminate| |discriminate].
        intros [= ->]. by apply IH.
Qed.

(** X17.  With data that are given, no lookup of a template without a
    dot throws: every placeholder is looked up as one key, and a key
    that is missing yields [undefined] and not an error.  The only
    error such a template can end with is that of turning a value it
    has found into text. *)
Theorem template_without_dot_lookup_safe str data m :
  truthy data = true ->
  Js.all (fun c => negb (Ascii.eqb c ".")) str = true ->
  template tag str data = Some (TypeError m) ->
  exists key v,
    get data key = Some (Normal v)
    /\ truthy v = true
    /\ to_string v = Some (TypeError m).
Proof.
  intros Hdata Hstr. unfold template, given. rewrite Hdata.
  by apply replace_all_flat.
Qed.

End TemplateMore.

Lemma template_without_placeholder_witness :
  Template.template Value.Undefined "a } b" (Value.Obj [])
  = Some (Value.Normal "a } b").
Proof. apply template_without_placeholder. reflexivity. Defined.

Lemma template_replaces_in_place_witness :
  Template.template (Value.Obj [("year", Value.Num 2012)])
    "hello {world}, {year}!"
    (Value.Obj [("world", Value.Str "foo"); ("year", Value.Num 2012)])
  = Some (Value.Normal "hello foo, 2012!")
  /\ Template.template (Value.Obj [("year", Value.Num 2012)])
       "(c) {year}" Value.Undefined
     = Some (Value.Normal "(c) 2012").
Proof.
  split.
  - rewrite (template_replaces_in_place _ "hello " "world" ", {year}!");
      [reflexivity | reflexivity | discriminate | reflexivity].
  - rewrite (template_replaces_in_place _ "(c) " "year" "");
      [reflexivity | reflexivity | discriminate | reflexivity].
Defined.

Lemma template_without_dot_lookup_safe_witness :
  exists key v,
    Value.get (Value.Obj [("a", Value.Obj [("toString", Value.Null)])]) key
    = Some (Value.Normal v)
    /\ Value.truthy v = true
    /\ Value.to_string v
       = Some (Value.TypeError "Cannot convert object to primitive value").
Proof.
  apply (template_without_dot_lookup_safe Value.Undefined "{a}"
           (Value.Obj [("a", Value.Obj [("toString", Value.Null)])])
           "Cannot convert object to primitive value");
    reflexivity.
Defined.

(** ** The tags, continued *)

Section TagMore.
Import Tag.

Lemma strip_literal lit s : Js.strip false lit (lit +:+ s) = Some s.
Proof.
  induction lit as [|c lit IH]; [reflexivity|].
  rewrite append_cons. cbn [Js.strip]. by rewrite Ascii.eqb_refl.
Qed.

Lemma span_word class word rest :
  Js.all class word = true ->
  match rest with String q _ => class q = false | EmptyString => True end ->
  Js.span class (word +:+ rest) = (word, rest).
Proof.
  intros Hword Hrest. induction word as [|c word IH].
  - rewrite append_empty_l. destruct rest as [|q rest]; [reflexivity|].
    simpl. by rewrite Hrest.
  - simpl in Hword. apply andb_true_iff in Hword as [Hc Hword].
    rewrite append_cons. simpl. by rewrite Hc, (IH Hword).
Qed.

Lemma capture_at_marked lit class word rest :
  word <> "" ->
  Js.all class word = true ->
  match rest with String q _ => class q = false | EmptyString => True end ->
  capture_at lit class (lit +:+ " " +:+ word +:+ rest) = Some word.
Proof.
  intros Hne Hword Hrest. unfold capture_at.
  rewrite strip_literal, append_cons, append_empty_l.
  change (Js.is_space " ") with true. cbv iota.
  rewrite (span_word _ _ _ Hword Hrest). by destruct word.
Qed.

Lemma capture_hit lit class s word :
  capture_at lit class s = Some word -> capture lit class s = Some word.
Proof. intros Hat. destruct s; cbn [capture]; by rewrite Hat. Qed.

Lemma capture_at_star class c s :
  c <> "*"%char -> capture_at "*" class (String c s) = None.
Proof.
  intros Hc. unfold capture_at.
  change (Js.strip false "*" (String c s))
    with (if Ascii.eqb "*" c then Some s else None).
  by destruct (Ascii.eqb_spec "*" c) as [<-|].
Qed.

Lemma capture_skip class pre s :
  Js.all (fun c => negb (Ascii.eqb c "*")) pre = true ->
  capture "*" class (pre +:+ s) = capture "*" class s.
Proof.
  intros Hpre. induction pre as [|c pre IH]; [reflexivity|].
  simpl in Hpre. apply andb_true_iff in Hpre as [Hc Hpre].
  apply negb_true_iff, Ascii.eqb_neq in Hc.
  rewrite append_cons. cbn [capture].
  rewrite (capture_at_star _ _ _ Hc). by apply IH.
Qed.

Lemma extract_filled lit class s :
  s <> "" ->
  extract lit class (Some s) = Some (default "" (capture lit class s)).
Proof. by destruct s. Qed.

Variable exec : string -> string.

(** X18.  With nothing cached, [tag] runs both commands and reads the
    branch that [git branch] marks with a star, whatever other branches
    are listed before or after it, and the commit that the output of
    [git show] starts with. *)
Theorem tag_reads_branch_and_commit
    ttl running now log before branch after commit rest :
  exec "git branch" = before +:+ "* " +:+ branch +:+ after ->
  exec "git show -s" = "commit " +:+ commit +:+ rest ->
  Js.all (fun c => negb (Ascii.eqb c "*")) before = true ->
  branch <> "" ->
  Js.all (fun c => is_word c || Ascii.eqb c ".") branch = true ->
  match after with
  | String q _ => is_word q || Ascii.eqb q "." = false
  | EmptyString => True
  end ->
  commit <> "" ->
  Js.all is_word commit = true ->
  match rest with String q _ => is_word q = false | EmptyString => True end ->
  tag exec now (State (Cache.Cache ttl running ∅) log)
  = (Tags (Some branch) (Some commit),
     State (Cache.Cache ttl running (stored exec now))
           (log ++ ["git branch"; "git show -s"])).
Proof.
  intros Hbranch Hshow Hbefore Hb Hbword Hafter Hc Hcword Hrest.
  rewrite tag_first. f_equal. unfold vcs_tags. rewrite Hbranch, Hshow.
  rewrite !extract_filled.
  - rewrite (capture_skip _ _ _ Hbefore).
    change ("* " +:+ branch +:+ after)
      with ("*" +:+ " " +:+ branch +:+ after).
    change ("commit " +:+ commit +:+ rest)
      with ("commit" +:+ " " +:+ commit +:+ rest).
    rewrite (capture_hit "*" _ _ branch
               (capture_at_marked "*" _ branch after Hb Hbword Hafter)).
    by rewrite (capture_hit "commit" _ _ commit
                  (capture_at_marked "commit" _ commit rest Hc Hcword Hrest)).
  - discriminate.
  - destruct before; discriminate.
Qed.

End TagMore.

Lemma tag_reads_branch_and_commit_witness :
  Tag.tag
    (fun command =>
       if String.eqb command "git branch"
       then Example.lines ["  development"; "* release.1"; "  master"]
       else Example.lines ["commit 0123abc"; "Author: someone"])
    0 Example.fresh
  = (Tag.Tags (Some "release.1") (Some "0123abc"),
     Tag.State
       (Cache.Cache Cache.three_minutes false
          (Tag.stored
             (fun command =>
                if String.eqb command "git branch"
                then Example.lines ["  development"; "* release.1"; "  master"]
                else Example.lines ["commit 0123abc"; "Author: someone"])
             0))
       ["git branch"; "git show -s"]).
Proof.
  apply (tag_reads_branch_and_commit _ Cache.three_minutes false 0 []
           ("  development" +:+ Js.nl) "release.1" (Js.nl +:+ "  master")
           "0123abc" (Js.nl +:+ "Author: someone"));
    first [reflexivity | discriminate | exact I].
Defined.

(** ** The middleware list *)

Section RegistryFacts.
Import Registry.

Lemma same_identity layer m :
  same layer m = true <-> identity m = identity layer.
Proof.
  unfold same, identity. rewrite andb_true_iff, !String.eqb_eq.
  split; [by intros [-> ->] | by intros [= -> ->]].
Qed.

Lemma has_identity r layer :
  has r layer = true <-> identity layer ∈ map identity (middleware r).
Proof.
  unfold has. rewrite existsb_exists, list_elem_of_fmap.
  split.
  - intros (m & Hm & Hsame). exists m.
    apply same_identity in Hsame. split; [done | by apply list_elem_of_In].
  - intros (m & Hid & Hm). exists m.
    split; [by apply list_elem_of_In | by apply same_identity].
Qed.

(** X19.  [use] keeps the list of middleware in the order of
    registration and free of functions with the same name and text: a
    function is appended unless one like it is registered, anything
    else is refused, and afterwards the function is known to [has] and a
    second [use] of it changes nothing. *)
Theorem use_registers_once layer r :
  let result := use layer r in
  middleware r `prefix_of` middleware (snd result)
  /\ (NoDup (map identity (middleware r)) ->
      NoDup (map identity (middleware (snd result))))
  /\ (forall f, layer = Function f ->
        has (snd result) f = true
        /\ (fst result = true <-> has r f = false)
        /\ use layer (snd result) = (false, snd result))
  /\ (forall v, layer = Other v ->
        fst result = false /\ middleware (snd result) = middleware r).
Proof.
  destruct layer as [f|v]; simpl.
  - destruct (has r f) eqn:Hhas; simpl.
    + split; [done|]. split; [done|]. split; [|discriminate].
      intros g [= <-]. rewrite Hhas. repeat split; done.
    + split; [by apply prefix_app_r|]. split.
      * intros Hnodup. rewrite map_app. apply NoDup_app.
        repeat split; [done| |apply NoDup_singleton].
        intros x Hx Hx'. apply list_elem_of_singleton in Hx' as ->.
        apply has_identity in Hx. congruence.
      * split; [|discriminate].
        intros g [= <-].
        assert (has (Registry (middleware r ++ [f]) (errors r)) f = true)
          as Hnow.
        { apply has_identity. simpl. rewrite map_app, elem_of_app.
          right. apply list_elem_of_here. }
        rewrite Hnow, Hhas. repeat split; done.
  - split; [done|]. split; [done|]. split; [discriminate|].
    by intros w [= <-].
Qed.

End RegistryFacts.

Lemma use_registers_once_witness :
  let lint := Registry.Func "lint" "function lint() {}" Pipeline.noop in
  let crush :=
    Registry.Func "crush" "function crush() {}" (Pipeline.addSuffix ";") in
  NoDup (map Registry.identity
           (Registry.middleware
              (snd (Registry.use (Registry.Function crush)
                      (Registry.Registry [lint] [])))))
  /\ Registry.has
       (snd (Registry.use (Registry.Function crush)
               (Registry.Registry [lint] []))) crush = true.
Proof.
  intros lint crush.
  destruct (use_registers_once (Registry.Function crush)
              (Registry.Registry [lint] [])) as (_ & Hnodup & Hfun & _).
  split.
  - apply Hnodup. repeat constructor. by intros Hin%elem_of_nil.
  - by destruct (Hfun crush eq_refl) as [Hhas _].
Defined.

(** ** The license header *)

Section LicenseFacts.
Import Value License.

Variable commentStyles : string -> option Directive.style.
Variable md5 : string -> string.
Variable branch sha date year user host env : value.

Lemma assign_cases {A} key (value : A) object :
  assign key value object
  = if String.eqb key "__proto__" then object
    else match object with
         | [] => [(key, value)]
         | (k, v) :: rest =>
             if String.eqb k key then (k, value) :: rest
             else (k, v) :: assign key value rest
         end.
Proof. by destruct object. Qed.

Lemma lookup_assign k k' v (object : props) :
  lookup k (assign k' v object)
  = if String.eqb k' "__proto__" then lookup k object
    else if String.eqb k' k then Some v else lookup k object.
Proof.
  induction object as [|[k0 v0] rest IH]; rewrite assign_cases;
    destruct (String.eqb k' "__proto__") eqn:Hproto; try reflexivity.
  destruct (String.eqb_spec k0 k') as [->|Hk0]; simpl.
  - by destruct (String.eqb k' k).
  - rewrite IH. destruct (String.eqb_spec k0 k) as [->|]; [|done].
    destruct (String.eqb_spec k' k) as [->|]; done.
Qed.

Lemma lookup_extend_none k (source : props) : forall object,
  lookup k source = None ->
  lookup k (extend object source) = lookup k object.
Proof.
  unfold extend.
  induction source as [|[k0 v0] rest IH]; intros object; simpl; [done|].
  destruct (String.eqb_spec k0 k) as [->|Hk0]; [discriminate|].
  intros Hrest. rewrite (IH _ Hrest), lookup_assign.
  apply String.eqb_neq in Hk0 as ->.
  by destruct (String.eqb k0 "__proto__").
Qed.

Lemma lookup_absent k (object : props) :
  k ∉ object.*1 -> lookup k object = None.
Proof.
  induction object as [|[k0 v0] rest IH]; simpl; [done|].
  intros Hk. apply not_elem_of_cons in Hk as [Hne Hrest].
  destruct (String.eqb_spec k0 k) as [->|]; [done|]. by apply IH.
Qed.

Lemma lookup_extend_some k v (source : props) : forall object,
  k <> "__proto__" ->
  NoDup source.*1 ->
  lookup k source = Some v ->
  lookup k (extend object source) = Some v.
Proof.
  unfold extend.
  induction source as [|[k0 v0] rest IH]; intros object Hproto; simpl;
    [discriminate|].
  intros Hnodup. apply NoDup_cons in Hnodup as [Hk0 Hnodup].
  destruct (String.eqb_spec k0 k) as [->|Hne].
  - intros [= ->].
    pose proof (lookup_extend_none k rest (assign k v object)
                  (lookup_absent _ _ Hk0)) as Hkeep.
    unfold extend in Hkeep. rewrite Hkeep, lookup_assign.
    apply String.eqb_neq in Hproto as ->.
    by rewrite String.eqb_refl.
  - by apply IH.
Qed.

(** X20.  [license] returns the content as it is when no license is
    configured and the empty text for an empty content.  Otherwise what
    it returns ends with the content that the collection holds after
    [tag] has written the tags of the configuration into it: the
    content of the file when no tag is named content, and the text of
    that tag when there is one.  When the tags name neither the content
    nor the extension and the extension has no comment style, the
    content is returned as it is. *)
Theorem license_keeps_content configured tags collection out :
  license commentStyles md5 branch sha date year user host env
    configured tags collection
  = Some (Normal out) ->
  (or_else "" (lookup "content" collection) = "" -> out = "")
  /\ (configured = None -> out = or_else "" (lookup "content" collection))
  /\ (lookup "content" tags = None ->
      exists header,
        out = header +:+ or_else "" (lookup "content" collection))
  /\ (forall text replaced,
        configured = Some text -> text <> "" ->
        or_else "" (lookup "content" collection) <> "" ->
        NoDup tags.*1 ->
        lookup "content" tags = Some replaced ->
        exists header, out = header +:+ replaced)
  /\ (lookup "content" tags = None ->
      lookup "extension" tags = None ->
      commentStyles (default "undefined" (lookup "extension" collection))
      = None ->
      out = or_else "" (lookup "content" collection)).
Proof.
  unfold license.
  assert (forall content : string,
            Some (Normal content) = Some (Normal out) ->
            content = or_else "" (lookup "content" collection) ->
            (configured = None \/ configured = Some ""
             \/ or_else "" (lookup "content" collection) = "") ->
            (or_else "" (lookup "content" collection) = "" -> out = "")
            /\ (configured = None ->
                out = or_else "" (lookup "content" collection))
            /\ (lookup "content" tags = None ->
                exists header,
                  out = header +:+ or_else "" (lookup "content" collection))
            /\ (forall text replaced,
                  configured = Some text -> text <> "" ->
                  or_else "" (lookup "content" collection) <> "" ->
                  NoDup tags.*1 ->
                  lookup "content" tags = Some replaced ->
                  exists header, out = header +:+ replaced)
            /\ (lookup "content" tags = None ->
                lookup "extension" tags = None ->
                commentStyles
                  (default "undefined" (lookup "extension" collection))
                = None ->
                out = or_else "" (lookup "content" collection)))
    as Hplain.
  { intros content [= <-] -> Hcase.
    split; [done|]. split; [done|]. split; [by exists ""|].
    split; [|done].
    intros text replaced Hconf Htext Hcontent.
    destruct Hcase as [Hnone|[Hempty|Hblank]]; congruence. }
  destruct configured as [[|ch text]|].
  - intros Hout. apply (Hplain _ Hout); auto.
  - destruct (lookup "content" collection) as [[|c0 content]|] eqn:Hcontent.
    + intros Hout. apply (Hplain _ Hout); auto.
    + clear Hplain. unfold tag.
      destruct (Template.template _ (String ch text) _) as [[header|m]|];
        [|discriminate..].
      intros [= <-]. split; [discriminate|]. split; [discriminate|].
      split; [|split].
      * intros Hnone. rewrite (lookup_extend_none _ _ _ Hnone), Hcontent.
        eauto.
      * intros text' replaced _ _ _ Hnodup Hsome.
        rewrite (lookup_extend_some "content" _ _ _ ltac:(discriminate)
                   Hnodup Hsome).
        eauto.
      * intros Hnone Hext Hsty.
        rewrite (lookup_extend_none _ _ _ Hnone), Hcontent.
        rewrite (lookup_extend_none _ _ _ Hext).
        unfold Directive.commentWrap. by rewrite Hsty.
    + intros Hout. apply (Hplain _ Hout); auto.
  - intros Hout. apply (Hplain _ Hout); auto.
Qed.

End LicenseFacts.

Lemma license_keeps_content_witness :
  License.license Example.star_styles (fun _ => "0f0f")
    (Value.Str "master") (Value.Str "0123abc") (Value.Str "1/1/2012")
    (Value.Num 2012) (Value.Str "someone") (Value.Str "localhost")
    (Value.Str "development")
    (Some "(c) {year} {user}")
    [("user", "observe.it"); ("content", "void 0;")]
    [("content", "var a;"); ("extension", "js")]
  = Some (Value.Normal
            (Js.nl +:+ "/* (c) 2012 observe.it */" +:+ Js.nl +:+ "void 0;"))
  /\ exists header,
       Js.nl +:+ "/* (c) 2012 observe.it */" +:+ Js.nl +:+ "void 0;"
       = header +:+ "void 0;".
Proof.
  assert (License.license Example.star_styles (fun _ => "0f0f")
            (Value.Str "master") (Value.Str "0123abc") (Value.Str "1/1/2012")
            (Value.Num 2012) (Value.Str "someone") (Value.Str "localhost")
            (Value.Str "development")
            (Some "(c) {year} {user}")
            [("user", "observe.it"); ("content", "void 0;")]
            [("content", "var a;"); ("extension", "js")]
          = Some (Value.Normal
                    (Js.nl +:+ "/* (c) 2012 observe.it */" +:+ Js.nl
                     +:+ "void 0;")))
    as Hlicense by (vm_compute; reflexivity).
  split; [exact Hlicense|].
  destruct (license_keeps_content _ _ _ _ _ _ _ _ _ _ _ _ _ Hlicense)
    as (_ & _ & _ & Hreplaced & _).
  apply (Hreplaced "(c) {year} {user}" "void 0;");
    [reflexivity | discriminate | discriminate | | reflexivity].
  apply NoDup_cons. split; [|apply NoDup_singleton].
  intros Hin. apply list_elem_of_singleton in Hin. discriminate.
Defined.

(** ** The constructor, continued *)

Section ConstructMore.
Import Value Construct.

Variable static : value.
Variable levels_debug levels_log levels_error : value.

#[local] Abbreviation extend' := (extend levels_log levels_error).
#[local] Abbreviation Square' :=
  (Square static levels_debug levels_log levels_error).





Lemma setSTDOUT_logger bool this props :
  this !! "logger" = Some (Instance "Logger" props) ->
  exists this' props',
    setSTDOUT levels_log levels_error bool this = Normal this'
    /\ this' !! "logger" = Some (Instance "Logger" props').
Proof.
  intros Hlogger. unfold setSTDOUT. rewrite Hlogger.
  eexists _, _. split; [reflexivity|].
  by rewrite lookup_insert_ne, lookup_insert_eq.
Qed.

Lemma extend_with_logger options : forall this props,
  this !! "logger" = Some (Instance "Logger" props) ->
  has_key "logger" options = false ->
  exists this', extend' this options = Normal this'.
Proof.
  induction options as [|[k v] rest IH]; intros this props Hlogger; simpl;
    [eauto|].
  intros Hkey. apply orb_false_iff in Hkey as [Hk Hrest].
  apply String.eqb_neq in Hk.
  destruct (String.eqb k "stdout").
  - destruct (setSTDOUT_logger v this props Hlogger)
      as (this1 & props1 & -> & Hlogger1).
    by apply (IH this1 props1).
  - apply (IH _ props); [|done]. by rewrite lookup_insert_ne.
Qed.

(** X22.  The constructor can only fail in the setter of [stdout],
    which needs the logger: with options that do not replace the
    logger, whatever else they hold, an instance is constructed. *)
Theorem Square_constructs_with_own_logger options :
  has_key "logger" options = false ->
  exists this, Square' (Some options) = Normal this.
Proof.
  intros Hkey. unfold Square. cbv [default from_option id].
  destruct (extend_with_logger options
              (<["eson" := Instance "eson" []]>
                 (<["logger" := logger levels_debug levels_log options]>
                    (<["cache" := Instance "Expires"
                                    [("expire", Num Cache.three_minutes)]]>
                       ∅)))
              _ ltac:(by rewrite lookup_insert_ne, lookup_insert_eq) Hkey)
    as [extended ->].
  eauto.
Qed.

End ConstructMore.


Lemma Square_constructs_with_own_logger_witness :
  exists this, Example.new_square = Value.Normal this.
Proof.
  apply Square_constructs_with_own_logger. reflexivity.
Defined.

(** ** The filters of the command line *)

Section CliFacts.
Import Cli.

Lemma split_aux_app sep x c rest : forall cur,
  Js.all (fun d => negb (sep d)) x = true ->
  sep c = true ->
  Js.split_aux sep (x +:+ String c rest) cur
  = (Js.rev cur +:+ x) :: Js.split_aux sep rest "".
Proof.
  induction x as [|d x IH]; intros cur Hx Hc.
  - rewrite append_empty_l, append_empty_r. simpl. by rewrite Hc.
  - simpl in Hx. apply andb_true_iff in Hx as [Hd Hx].
    apply negb_true_iff in Hd.
    rewrite append_cons. simpl. rewrite Hd, (IH _ Hx Hc).
    by rewrite rev_cons, append_assoc.
Qed.

Lemma split_join sep c l :
  l <> [] ->
  sep c = true ->
  Forall (fun x => Js.all (fun d => negb (sep d)) x = true) l ->
  Js.split sep (Js.join (String c "") l) = l.
Proof.
  intros Hne Hc Hall. unfold Js.split.
  induction Hall as [|x rest Hx Hrest IH]; [done|].
  destruct rest as [|y rest].
  - simpl. by rewrite split_aux_whole.
  - change (Js.join (String c "") (x :: y :: rest))
      with (x +:+ String c "" +:+ Js.join (String c "") (y :: rest)).
    rewrite append_cons, append_empty_l, (split_aux_app _ _ _ _ _ Hx Hc).
    by rewrite IH.
Qed.

Lemma plain_no_comma s :
  plain s = true -> Js.all (fun d => negb (Ascii.eqb "," d)) s = true.
Proof.
  unfold plain. induction s as [|c s IH]; [reflexivity|].
  cbn [Js.all]. intros H. apply andb_true_iff in H as [Hc Hs].
  apply andb_true_iff in Hc as [Hc _].
  by rewrite Ascii.eqb_sym, Hc, (IH Hs).
Qed.

Lemma plain_no_hash s :
  plain s = true -> Js.all (fun d => negb (Ascii.eqb "#" d)) s = true.
Proof.
  unfold plain. induction s as [|c s IH]; [reflexivity|].
  cbn [Js.all]. intros H. apply andb_true_iff in H as [Hc Hs].
  apply andb_true_iff in Hc as [_ Hc].
  by rewrite Ascii.eqb_sym, Hc, (IH Hs).
Qed.

Lemma pair_no_comma kv :
  plain (fst kv) = true -> plain (snd kv) = true ->
  Js.all (fun d => negb (Ascii.eqb "," d)) (pair kv) = true.
Proof.
  intros Hk Hv. unfold pair.
  by rewrite !all_app, (plain_no_comma _ Hk), (plain_no_comma _ Hv).
Qed.

Lemma each_pair res kv :
  plain (fst kv) = true -> plain (snd kv) = true ->
  each res (pair kv) = assign (fst kv) (Some (snd kv)) res.
Proof.
  intros Hk Hv. unfold each, pair, Js.split.
  rewrite append_cons, append_empty_l.
  rewrite (split_aux_app (Ascii.eqb "#") (fst kv) "#" (snd kv) ""
             (plain_no_hash _ Hk) eq_refl).
  by rewrite (split_aux_whole (Ascii.eqb "#") _ _ (plain_no_hash _ Hv)).
Qed.

Lemma foldl_each_lookup l k :
  Forall (fun kv => plain (fst kv) = true /\ plain (snd kv) = true) l ->
  foldl each ∅ (map pair l) !! k
  = if String.eqb k "__proto__" then None
    else Some <$> ((list_to_map (reverse l) : gmap string string) !! k).
Proof.
  induction l as [|kv l IH] using rev_ind; intros Hplain.
  - simpl. rewrite lookup_empty. by destruct (String.eqb k "__proto__").
  - apply Forall_app in Hplain as [Hl Hkv].
    inversion Hkv as [|? ? [Hkey Hvalue] _]; subst.
    rewrite map_app, foldl_app. simpl.
    rewrite (each_pair _ _ Hkey Hvalue), reverse_snoc. simpl.
    unfold assign.
    destruct (String.eqb_spec (fst kv) "__proto__") as [Hproto|Hproto].
    + rewrite (IH Hl).
      destruct (String.eqb_spec k "__proto__") as [Hk|Hk]; [done|].
      rewrite lookup_insert_ne; [done | congruence].
    + destruct (decide (fst kv = k)) as [<-|Hne].
      * rewrite !lookup_insert_eq.
        by apply String.eqb_neq in Hproto as ->.
      * rewrite !lookup_insert_ne by done. by apply IH.
Qed.

(** X23.  The filter [replace] reads back a list of pairs written as
    key, hash, value and joined by commas: when no key or value holds a
    comma or a hash, the object it builds holds under every key the
    last value that the list gives it and nothing under other keys,
    except that nothing is stored under [__proto__]; [listing] likewise
    reads back a list of names joined by commas. *)
Theorem replace_reads_pairs l :
  l <> [] ->
  Forall (fun kv => plain (fst kv) = true /\ plain (snd kv) = true) l ->
  (forall k,
      replace (Js.join "," (map pair l)) !! k
      = if String.eqb k "__proto__" then None
        else Some <$> ((list_to_map (reverse l) : gmap string string) !! k))
  /\ listing (Js.join "," l.*1) = l.*1.
Proof.
  intros Hne Hplain. unfold replace, listing. split.
  - intros k. rewrite split_join; [| |reflexivity|].
    + by apply foldl_each_lookup.
    + by destruct l.
    + apply Forall_fmap. eapply Forall_impl; [exact Hplain|].
      intros kv [Hk Hv]. by apply pair_no_comma.
  - rewrite split_join; [done| |reflexivity|].
    + by destruct l.
    + apply Forall_fmap. eapply Forall_impl; [exact Hplain|].
      intros kv [Hk _]. by apply plain_no_comma.
Qed.

End CliFacts.

Lemma replace_reads_pairs_witness :
  Cli.replace "2#x,1#y,__proto__#z,2#w" !! "2" = Some (Some "w")
  /\ Cli.replace "2#x,1#y,__proto__#z,2#w" !! "1" = Some (Some "y")
  /\ Cli.replace "2#x,1#y,__proto__#z,2#w" !! "__proto__" = None
  /\ Cli.replace "2#x,1#y,__proto__#z,2#w" !! "3" = None
  /\ Cli.listing "2,1,__proto__,2" = ["2"; "1"; "__proto__"; "2"].
Proof.
  destruct (replace_reads_pairs
              [("2", "x"); ("1", "y"); ("__proto__", "z"); ("2", "w")])
    as [Hlookup Hlisting].
  - discriminate.
  - repeat constructor.
  - split; [exact (Hlookup "2")|]. split; [exact (Hlookup "1")|].
    split; [exact (Hlookup "__proto__")|]. split; [exact (Hlookup "3")|].
    exact Hlisting.
Defined.
